(** * non-bonded-periodic: the Monte Carlo engine of [nbp]

    A shallow embedding of [nbp/sysmodule.py] and [nbp/markov.py].

    Conventions of the embedding.
    - Python floats and numpy float64 values are real numbers ([R]); rounding,
      [inf] and [nan] are outside the model.  numpy does not raise on a
      division by zero ([inf]/[nan] with a warning); the statements below never
      depend on the value of such a quotient.  Python's own [/] and [**] on
      floats do raise [ZeroDivisionError], and that is modelled.
    - Python ints are [Z]; an argument that may be [None], an [int] or a
      [float] is a [pyarg].
    - A numpy position array of shape (N, 3) is a list of rows; arrays are
      mutable objects that several [SystemState]s may reference, so they live
      in a store ([heap]) and a state holds an address.
    - Exceptions are the left summand of [result]; the code catches none.
    - Random draws ([np.random.choice], [multivariate_normal.rvs],
      [np.random.random]) are read from an explicit [Draw] supplied by the
      caller; [choice_ok] and [uniform_ok] say which draws numpy can produce. *)

From Stdlib Require Import Reals Lra Lia ZArith List Bool Permutation.
Import ListNotations.
Local Open Scope R_scope.

(** ** Python values, exceptions *)

Module Py.

Inductive exn : Set :=
| TypeError
| ValueError
| AttributeError
| IndexError
| ZeroDivisionError
| LinAlgError.

Inductive result (A : Type) : Type :=
| Ok (a : A)
| Err (e : exn).

Arguments Ok {A} a.
Arguments Err {A} e.

Definition bind {A B : Type} (m : result A) (f : A -> result B) : result B :=
  match m with
  | Ok a => f a
  | Err e => Err e
  end.

(** The value of an argument such as [num_particles]. *)
Inductive pyarg : Type :=
| PyNone
| PyInt (k : Z)
| PyFloat (f : R).

(** [int(x)] on a float: truncation toward zero. *)
Definition py_int (x : R) : Z :=
  if Rle_dec 0 x then Zfloor x else Zceil x.

(** [l[start:]] for a list of length [length l]: a negative start counts from
    the end, and both ends are clamped. *)
Definition slice_from {A : Type} (start : Z) (l : list A) : list A :=
  let len := Z.of_nat (length l) in
  let s := if (start <? 0)%Z then Z.max 0 (len + start) else start in
  skipn (Z.to_nat s) l.

(** [1 / x] and [x ** (-1)] on Python floats. *)
Definition py_inv (x : R) : result R :=
  if Req_dec_T x 0 then Err ZeroDivisionError else Ok (/ x).

End Py.

Import Py.

Declare Scope py_scope.
Delimit Scope py_scope with py.
Notation "x <- m ;; k" := (bind m (fun x => k))
  (at level 61, m at next level, right associativity) : py_scope.
Notation "' pat <- m ;; k" := (bind m (fun x => match x with pat => k end))
  (at level 61, pat pattern, m at next level, right associativity) : py_scope.
Local Open Scope py_scope.

(** ** numpy and scipy *)

Module Np.

(** One row of a position array. *)
Definition vec3 : Type := (R * R * R)%type.

(** A float array of shape (N, 3). *)
Definition ndarray : Type := list vec3.

Definition vmap (f : R -> R) (v : vec3) : vec3 :=
  let '(x, y, z) := v in (f x, f y, f z).

Definition vzip (f : R -> R -> R) (u v : vec3) : vec3 :=
  let '(a, b, c) := u in
  let '(x, y, z) := v in (f a x, f b y, f c z).

Definition vadd : vec3 -> vec3 -> vec3 := vzip Rplus.
Definition vsub : vec3 -> vec3 -> vec3 := vzip Rminus.

(** [np.linalg.norm] of a row. *)
Definition norm (v : vec3) : R :=
  let '(x, y, z) := v in sqrt (x * x + y * y + z * z).

(** What an arithmetic expression over floats and rows evaluates to: a float,
    or an array of shape (3,).  Binary operations broadcast a float against
    an array. *)
Inductive ndval : Type :=
| Scalar (x : R)
| Array3 (v : vec3).

Definition nd_map (f : R -> R) (a : ndval) : ndval :=
  match a with
  | Scalar x => Scalar (f x)
  | Array3 v => Array3 (vmap f v)
  end.

Definition nd_zip (f : R -> R -> R) (a b : ndval) : ndval :=
  match a, b with
  | Scalar x, Scalar y => Scalar (f x y)
  | Scalar x, Array3 v => Array3 (vmap (f x) v)
  | Array3 u, Scalar y => Array3 (vmap (fun x => f x y) u)
  | Array3 u, Array3 v => Array3 (vzip f u v)
  end.

Definition nd_add : ndval -> ndval -> ndval := nd_zip Rplus.
Definition nd_sub : ndval -> ndval -> ndval := nd_zip Rminus.
Definition nd_mul : ndval -> ndval -> ndval := nd_zip Rmult.
Definition nd_div : ndval -> ndval -> ndval := nd_zip Rdiv.

Definition Rleb (x y : R) : bool := if Rle_dec x y then true else false.
Definition Rltb (x y : R) : bool := if Rlt_dec x y then true else false.

(** The elements of a value, flattened. *)
Definition elements (a : ndval) : list R :=
  match a with
  | Scalar x => [x]
  | Array3 (x, y, z) => [x; y; z]
  end.

(** [bool(a <= b)], as an [if] evaluates it: a comparison of arrays is an
    array of booleans, and the truth value of an array with more than one
    element raises [ValueError]. *)
Definition truth_le (a b : ndval) : result bool :=
  match a, b with
  | Scalar x, Scalar y => Ok (Rleb x y)
  | _, _ => Err ValueError
  end.

(** [np.min((1, a))]: the pair is converted to an array first; a float and an
    array of shape (3,) do not form one (ragged), and the reduction raises
    [ValueError]. *)
Definition min_with_one (a : ndval) : result R :=
  match a with
  | Scalar x => Ok (Rmin 1 x)
  | Array3 _ => Err ValueError
  end.

(** [np.all(np.less(np.abs(np.asarray(es) - e), tol))]. *)
Definition all_close (es : list ndval) (e : ndval) (tol : R) : bool :=
  forallb (fun x => forallb (fun d => Rltb (Rabs d) tol) (elements (nd_sub x e))) es.

(** [a[i]] for a row index known to be in range. *)
Definition row (a : ndarray) (i : nat) : vec3 := nth i a (0, 0, 0).

(** [a[idx]] (fancy indexing): a new array of the selected rows. *)
Definition gather (a : ndarray) (idx : list nat) : ndarray := map (row a) idx.

Fixpoint set_row (a : ndarray) (i : nat) (v : vec3) : ndarray :=
  match a, i with
  | [], _ => []
  | _ :: t, O => v :: t
  | h :: t, S j => h :: set_row t j v
  end.

(** [a[idx] = rows], in place: rows are written in order, so the last write to
    a repeated index stands. *)
Fixpoint scatter (a : ndarray) (idx : list nat) (rows : ndarray) : ndarray :=
  match idx, rows with
  | i :: idx', r :: rows' => scatter (set_row a i r) idx' rows'
  | _, _ => a
  end.

(** [np.random.choice(pop, size=size, replace=replace)]; [draw] is the sample
    the generator produced.  The checks numpy makes on its arguments are
    modelled; the sample is returned as supplied, and [choice_ok] below says
    how a sample numpy can produce relates to [size] and [replace]. *)
Definition random_choice (pop size : Z) (replace : bool) (draw : list nat)
  : result (list nat) :=
  if (size <? 0)%Z then Err ValueError
  else if ((pop <=? 0) && negb (size =? 0))%Z then Err ValueError
  else if (negb replace && (pop <? size))%Z then Err ValueError
  else Ok draw.

(** The samples [np.random.choice] can return. *)
Definition choice_ok (pop size : Z) (replace : bool) (draw : list nat) : Prop :=
  Z.of_nat (length draw) = size
  /\ Forall (fun i => (Z.of_nat i < pop)%Z) draw
  /\ (replace = false -> NoDup draw).

(** [scipy.stats.multivariate_normal(mean, cov * I)]: the covariance must be
    positive definite. *)
Definition multivariate_normal (cov : R) : result unit :=
  if Rlt_dec 0 cov then Ok tt
  else if Req_dec_T cov 0 then Err LinAlgError
  else Err ValueError.

(** [.rvs(k)]: [k] rows read from the generator. *)
Definition rvs (k : nat) (normal : nat -> vec3) : ndarray := map normal (seq 0 k).

(** The Gaussian integrand of the error function. *)
Definition gauss (t : R) : R := exp (- (t * t)).

(** The integrand is continuous, hence integrable on every interval. *)
Definition gauss_integrable (a b : R) : Riemann_integrable gauss a b.
Proof.
  assert (Hc : continuity gauss).
  { unfold gauss. apply (continuity_comp (fun t => - (t * t)) exp).
    - apply continuity_opp.
      apply continuity_mult; apply derivable_continuous, derivable_id.
    - apply derivable_continuous, derivable_exp. }
  destruct (Rle_dec a b) as [Hab | Hab].
  - apply continuity_implies_RiemannInt; [assumption | intros; apply Hc].
  - apply RiemannInt_P1, continuity_implies_RiemannInt; [lra | intros; apply Hc].
Qed.

(** [scipy.special.erfc]. *)
Definition erf (x : R) : R := 2 / sqrt PI * RiemannInt (gauss_integrable 0 x).
Definition erfc (x : R) : R := 1 - erf x.

End Np.

Import Np.

(** ** nbp/sysmodule.py *)

Module Sysmodule.

(** Address of a position array in the store. *)
Definition loc : Set := nat.

(** The store of position arrays. *)
Definition heap : Type := list ndarray.

Definition load (h : heap) (l : loc) : ndarray := nth l h [].

Fixpoint store (h : heap) (l : loc) (a : ndarray) : heap :=
  match h, l with
  | [], _ => []
  | _ :: t, O => a :: t
  | x :: t, S k => x :: store t k a
  end.

(** A new array object; its address is the next free one. *)
Definition alloc (h : heap) (a : ndarray) : loc * heap := (length h, h ++ [a]).

(** [SystemInfo]: the static data.  The back reference [__system] is the
    owner itself and is passed explicitly instead. *)
Record SystemInfo : Type := mkSystemInfo {
  sigma : R;
  cutoff_radius : R;
  epsilon0 : R;
  particle_charges : list R;
  char_length : R;
  periods : R
}.

(** [SystemState]: [__positions] is a reference to an array, [__neighbours]
    is always [None]. *)
Record SystemState : Type := mkSystemState {
  positions : loc
}.

(** A [System] instance.  [systemStates] is the attribute the class itself
    writes as [self.__systemStates], i.e. [_System__systemStates] after name
    mangling; [attr_systemStates] is the distinct instance attribute
    [_systemStates], absent until something assigns it. *)
Record System : Type := mkSystem {
  systemInfo : SystemInfo;
  systemStates : list SystemState;
  attr_systemStates : option (list SystemState)
}.

(** The store together with the one system the driver works on. *)
Record World : Type := mkWorld {
  arrays : heap;
  system : System
}.

(** [SystemInfo.__init__(self, characteristic_length, sigma, particle_charges,
    system, periods)].  No parameter has a default; [periods = None] stands
    for a call that supplies no fifth argument, which Python rejects when it
    binds the arguments. *)
Definition SystemInfo_init (characteristic_length sigma_ : R)
    (particle_charges_ : list R) (periods_ : option R) : result SystemInfo :=
  match periods_ with
  | None => Err TypeError
  | Some n =>
      Ok {| sigma := sigma_;
            cutoff_radius := sigma_ * 2.5;
            epsilon0 := 1;
            particle_charges := particle_charges_;
            char_length := characteristic_length;
            periods := n |}
  end.

(** [System.__init__]: the call [SystemInfo(characteristic_length, sigma,
    particle_charges, self)] passes four arguments. *)
Definition System_init (h : heap) (characteristic_length sigma_ : R)
    (particle_charges_ : list R) (positions_ : ndarray) : result World :=
  info <- SystemInfo_init characteristic_length sigma_ particle_charges_ None ;;
  let '(l, h') := alloc h positions_ in
  Ok {| arrays := h';
        system := {| systemInfo := info;
                     systemStates := [ {| positions := l |} ];
                     attr_systemStates := None |} |}.

(** [System.update_state]. *)
Definition update_state (w : World) (new_state : SystemState) : World :=
  {| arrays := arrays w;
     system := {| systemInfo := systemInfo (system w);
                  systemStates := systemStates (system w) ++ [new_state];
                  attr_systemStates := attr_systemStates (system w) |} |}.

(** [System.info]. *)
Definition info (w : World) : SystemInfo := systemInfo (system w).

(** [System.states]. *)
Definition states (w : World) : list SystemState := systemStates (system w).

(** [System.state]: [self.__systemStates[-1]]. *)
Definition state (w : World) : result SystemState :=
  match rev (states w) with
  | [] => Err IndexError
  | s :: _ => Ok s
  end.

(** [SystemInfo.volume]. *)
Definition volume (i : SystemInfo) : R := char_length i ^ 3.

(** [SystemInfo.cutoff]. *)
Definition cutoff (i : SystemInfo) : R := cutoff_radius i.

(** [SystemInfo] has an accessor [sigma] and no attribute [_sigma_lj]: looking
    it up raises. *)
Definition SystemInfo_sigma_lj (i : SystemInfo) : result R := Err AttributeError.

(** One summand of line 129, for particles [i] and [j]:
    [(charges[i]*charges[j]) / (pos[i]-pos[j] + n*L)
       * erfc((norm(pos[i]-pos[j]) + n*L) / (sqrt(2)*sigma))].
    The divisor is the difference vector itself, so the summand is an array
    of shape (3,). *)
Definition pair_term (i : SystemInfo) (qi qj : R) (pi pj : vec3) : ndval :=
  let nL := periods i * char_length i in
  let d := vsub pi pj in
  nd_mul (nd_div (Scalar (qi * qj)) (nd_add (Array3 d) (Scalar nL)))
         (Scalar (erfc ((norm d + nL) / (sqrt 2 * sigma i)))).

(** The double loop of lines 126-129 over [range(len(charges))], both
    indices running over every particle. *)
Definition shortsum (i : SystemInfo) (pos : ndarray) : ndval :=
  let charges := particle_charges i in
  let idx := seq 0 (length charges) in
  fold_left
    (fun acc a =>
       fold_left
         (fun acc' b =>
            nd_add acc' (pair_term i (nth a charges 0) (nth b charges 0)
                                   (row pos a) (row pos b)))
         idx acc)
    idx (Scalar 0).

(** [np.sum(charges**2)]. *)
Definition sum_squares (charges : list R) : R :=
  fold_right (fun q acc => q * q + acc) 0 charges.

(** [SystemState.energy], on the array [pos] the state references.  [pos[i]]
    raises [IndexError] as soon as the array has fewer rows than there are
    charges. *)
Definition energy_of (i : SystemInfo) (pos : ndarray) : result ndval :=
  let V := volume i in
  if (length pos <? length (particle_charges i))%nat then Err IndexError
  else
    let short := shortsum i pos in
    let longsum := 0 in
    c_short <- py_inv (8 * PI * epsilon0 i) ;;
    let energy_short := nd_mul (Scalar c_short) short in
    c_long <- py_inv (V * epsilon0 i) ;;
    let energy_long := Scalar (c_long * longsum) in
    c_self <- py_inv (2 * epsilon0 i * sigma i * Rpower (2 * PI) (3 / 2)) ;;
    let energy_self := Scalar (c_self * sum_squares (particle_charges i)) in
    Ok (nd_sub (nd_add energy_short energy_long) energy_self).

Definition energy (w : World) (s : SystemState) : result ndval :=
  energy_of (info w) (load (arrays w) (positions s)).

End Sysmodule.

Import Sysmodule.

(** ** nbp/markov.py *)

Module Markov.

(** The random numbers one step consumes: the sample of [np.random.choice],
    the Gaussian rows of [rvs] (by position in the sample), and the value of
    [np.random.random()]. *)
Record Draw : Type := mkDraw {
  choice : list nat;
  normal : nat -> vec3;
  uniform : R
}.

(** [np.random.random()] lies in [0, 1). *)
Definition uniform_ok (d : Draw) : Prop := 0 <= uniform d < 1.

(** Lines 52-57 of [Optimizer._propose]: the subset size, or [ValueError].
    The product [N * fraction] is the exact one; the code truncates the
    product rounded to a double, which can differ by one where the exact
    product is within rounding of an integer.  Counts are exact. *)
Definition propose_size (n : Z) (num_particles : pyarg) : result Z :=
  match num_particles with
  | PyFloat f => if Rle_dec f 1 then Ok (py_int (IZR n * f)) else Err ValueError
  | PyInt k => if (k <=? n)%Z then Ok k else Err ValueError
  | PyNone => Err ValueError
  end.

(** [Optimizer._propose].  [proposal_positions = positions] binds a second
    name to the array of the current state, so the assignment of line 60
    writes into that array, and the proposal state references it too. *)
Definition Optimizer_propose (w : World) (cov : R) (num_particles : pyarg) (d : Draw)
  : result (SystemState * ndval * World) :=
  st <- state w ;;
  let positions_ := load (arrays w) (positions st) in
  let n := Z.of_nat (length positions_) in
  k <- propose_size n num_particles ;;
  particles <- random_choice n k false (choice d) ;;
  let proposal_positions := positions st in
  _ <- multivariate_normal cov ;;
  let moved := map (fun pr => vadd (fst pr) (snd pr))
                   (combine (gather positions_ particles)
                            (rvs (Z.to_nat k) (normal d))) in
  let w' := {| arrays := store (arrays w) proposal_positions
                               (scatter positions_ particles moved);
               system := system w |} in
  let proposal_state := {| positions := proposal_positions |} in
  e <- energy w' proposal_state ;;
  Ok (proposal_state, e, w').

(** [Optimizer._check]: [if proposal_energy <= orig_energy]. *)
Definition Optimizer_check (orig_energy proposal_energy : ndval) : result bool :=
  truth_le proposal_energy orig_energy.

(** [Optimizer.act].  The attribute [_proposal] it sets is read nowhere and is
    left out. *)
Definition Optimizer_act (w : World) (cov : R) (num_particles : pyarg) (d : Draw)
  : result (SystemState * ndval * World) :=
  st <- state w ;;
  orig_energy <- energy w st ;;
  '(proposal, proposal_energy, w') <- Optimizer_propose w cov num_particles d ;;
  accepted <- Optimizer_check orig_energy proposal_energy ;;
  if accepted : bool then Ok (proposal, proposal_energy, w')
  else
    st' <- state w' ;;
    Ok (st', orig_energy, w').

(** [Simulator._metropolis]: works on [np.copy] of the current positions.
    With no index selected the right-hand side is [np.array([])], of shape
    (0,), which cannot be assigned to a selection of shape (0, 3). *)
Definition Simulator_metropolis (w : World) (indices : list nat) (cov : R) (d : Draw)
  : result (SystemState * World) :=
  st <- state w ;;
  let new_positions := load (arrays w) (positions st) in
  match indices with
  | [] => Err ValueError
  | _ :: _ =>
      _ <- multivariate_normal cov ;;
      let moved := map (fun pr => vadd (fst pr) (snd pr))
                       (combine (gather new_positions indices)
                                (rvs (length indices) (normal d))) in
      let '(l, h') := alloc (arrays w) (scatter new_positions indices moved) in
      Ok ({| positions := l |}, {| arrays := h'; system := system w |})
  end.

(** The Boltzmann constant as line 109 writes it. *)
Definition k_B : R := 8.6173303e-5.

(** Line 112: [np.min((1, np.exp(beta * (energy_prop - energy_prev))))].
    [exp] is the real exponential, never 0; [np.exp] underflows to 0.0 for a
    very negative argument. *)
Definition Simulator_p_acc (beta : R) (energy_prev energy_prop : ndval) : result R :=
  min_with_one (nd_map exp (nd_mul (Scalar beta) (nd_sub energy_prop energy_prev))).

(** Lines 112-116 on given energies: the decision for the draw [u]. *)
Definition Simulator_accept (beta : R) (energy_prev energy_prop : ndval) (u : R)
  : result bool :=
  p_acc <- Simulator_p_acc beta energy_prev energy_prop ;;
  Ok (Rleb u p_acc).

(** [Simulator._check]. *)
Definition Simulator_check (w : World) (s : SystemState) (temperature : R) (d : Draw)
  : result bool :=
  beta <- py_inv (k_B * temperature) ;;
  st <- state w ;;
  energy_prev <- energy w st ;;
  energy_prop <- energy w s ;;
  Simulator_accept beta energy_prev energy_prop (uniform d).

(** Lines 94-95 of [Simulator.act]: the indices to move.  [replace] is not
    passed, and [np.random.choice] samples with replacement by default. *)
Definition Simulator_indices (num_particles : nat) (d : Draw) : result (list nat) :=
  random_choice (Z.of_nat num_particles)
                (Zceil (0.1 * INR num_particles)) true (choice d).

(** [Simulator.act] from line 94 on, for a given [cov]. *)
Definition Simulator_act_from (w : World) (cov temperature : R) (d : Draw)
  : result (SystemState * World) :=
  st <- state w ;;
  let num_particles := length (load (arrays w) (positions st)) in
  indices_toMove <- Simulator_indices num_particles d ;;
  '(proposal_state, w') <- Simulator_metropolis w indices_toMove cov d ;;
  accepted <- Simulator_check w' proposal_state temperature d ;;
  if accepted : bool then Ok (proposal_state, w')
  else
    st' <- state w' ;;
    Ok (st', w').

(** [Simulator.act]; line 93 reads [self._system.info()._sigma_lj()]. *)
Definition Simulator_act (w : World) (temperature : R) (d : Draw)
  : result (SystemState * World) :=
  sigma_lj <- SystemInfo_sigma_lj (info w) ;;
  Simulator_act_from w (sigma_lj / 15) temperature d.

(** The test of lines 24-25 that leaves the loop of [optimize]. *)
Definition no_progress (energies : list ndval) (new_energy : ndval)
    (no_progress_break : Z) (d_energy_tol : R) : bool :=
  (no_progress_break <? Z.of_nat (length energies))%Z
  && all_close (slice_from (- no_progress_break) energies) new_energy d_energy_tol.

(** The [for] loop of [MCMC.optimize]: [steps] iterations remain, [i] is the
    index of the next one, [energies] the list built so far. *)
Fixpoint optimize_loop (steps : nat) (i : nat) (w : World) (energies : list ndval)
    (cov d_energy_tol : R) (no_progress_break : Z) (num_particles : pyarg)
    (rng : nat -> Draw) : result (World * list ndval) :=
  match steps with
  | O => Ok (w, energies)
  | S steps' =>
      '(new_state, new_energy, w1) <- Optimizer_act w cov num_particles (rng i) ;;
      let w2 := update_state w1 new_state in
      let energies' := energies ++ [new_energy] in
      if no_progress energies' new_energy no_progress_break d_energy_tol
      then Ok (w2, energies')
      else optimize_loop steps' (S i) w2 energies' cov d_energy_tol
                         no_progress_break num_particles rng
  end.

(** [MCMC.optimize].  It returns the system; the local list [energies] is
    returned with it here, so that statements can speak about it.  The last
    statement assigns the attribute [_systemStates]: the name is written
    outside class [System], where no mangling to [_System__systemStates]
    takes place. *)
Definition MCMC_optimize (w : World) (max_steps : Z) (cov : option R)
    (d_energy_tol : R) (no_progress_break : Z) (num_particles : pyarg)
    (drop_intermediate_states : bool) (rng : nat -> Draw)
  : result (World * list ndval) :=
  let cov' := match cov with
              | Some c => c
              | None => cutoff (info w) / 24
              end in
  '(w1, energies) <- optimize_loop (Z.to_nat max_steps) 0 w [] cov' d_energy_tol
                                   no_progress_break num_particles rng ;;
  if drop_intermediate_states then
    st <- state w1 ;;
    Ok ({| arrays := arrays w1;
           system := {| systemInfo := systemInfo (system w1);
                        systemStates := systemStates (system w1);
                        attr_systemStates := Some [st] |} |}, energies)
  else Ok (w1, energies).

(** The loop of [MCMC.simulate]. *)
Fixpoint simulate_loop (steps : nat) (i : nat) (w : World) (temperature : R)
    (rng : nat -> Draw) : result World :=
  match steps with
  | O => Ok w
  | S steps' =>
      '(s, w1) <- Simulator_act w temperature (rng i) ;;
      simulate_loop steps' (S i) (update_state w1 s) temperature rng
  end.

(** [MCMC.simulate]. *)
Definition MCMC_simulate (w : World) (steps : Z) (temperature : R) (rng : nat -> Draw)
  : result (SystemState * World) :=
  w' <- simulate_loop (Z.to_nat steps) 0 w temperature rng ;;
  st <- state w' ;;
  Ok (st, w').

End Markov.

Import Markov.

(** ** Concrete systems used in the statements *)

(** Static data of a cell of length 1 with [sigma = 1], one periodic image
    and the charges [q]. *)
Definition unit_info (q : list R) : SystemInfo :=
  {| sigma := 1; cutoff_radius := 2.5; epsilon0 := 1;
     particle_charges := q; char_length := 1; periods := 1 |}.

(** One particle of charge 1 at the origin; the history is the initial state. *)
Definition one_particle : World :=
  {| arrays := [ [ (0, 0, 0) ] ];
     system := {| systemInfo := unit_info [1];
                  systemStates := [ {| positions := 0%nat |} ];
                  attr_systemStates := None |} |}.

(** The same system after one further [update_state] with a second array. *)
Definition one_particle_two_states : World :=
  {| arrays := [ [ (0, 0, 0) ]; [ (0.5, 0, 0) ] ];
     system := {| systemInfo := unit_info [1];
                  systemStates := [ {| positions := 0%nat |}; {| positions := 1%nat |} ];
                  attr_systemStates := None |} |}.

(** A draw that selects particle 0 and moves it by (1, 0, 0). *)
Definition move_first : Draw :=
  {| choice := [0%nat]; normal := fun _ => (1, 0, 0); uniform := 0.5 |}.

(** A draw with an empty sample. *)
Definition move_none : Draw :=
  {| choice := []; normal := fun _ => (0, 0, 0); uniform := 0.5 |}.

(** ** Vocabulary of the statements *)

(** The value is an array of shape (3,), not a float. *)
Definition is_array (v : ndval) : Prop :=
  match v with
  | Array3 _ => True
  | Scalar _ => False
  end.

(** The value each of the three components takes for one unit charge in the
    unit cell: the summand of the pair (0, 0) minus the self energy. *)
Definition one_particle_component : R :=
  / (8 * PI) * erfc (1 / sqrt 2) - / (2 * Rpower (2 * PI) (3 / 2)).

(** A sample of size two that names particle 3 twice. *)
Definition third_twice : Draw :=
  {| choice := [3%nat; 3%nat]; normal := fun _ => (0, 0, 0); uniform := 0.5 |}.


(** [x] differs from [e] by less than [tol], element by element. *)
Definition close (tol : R) (e x : ndval) : Prop :=
  Forall (fun d => Rabs d < tol) (elements (nd_sub x e)).

(** The energy list has more than [window] entries and each entry of the
    slice [[-window:]] is close to the most recent one. *)
Definition plateau (trace : list ndval) (window : Z) (tol : R) : Prop :=
  (window < Z.of_nat (length trace))%Z
  /\ Forall (close tol (last trace (Scalar 0))) (slice_from (- window) trace).

(** A system without particles whose history holds [k + 1] states. *)
Definition no_particles (k : nat) : World :=
  {| arrays := [ [] ];
     system := {| systemInfo := unit_info [];
                  systemStates := repeat {| positions := 0%nat |} (S k);
                  attr_systemStates := None |} |}.

(** The subset specification is above its upper bound (a fraction above 1,
    a count above N), or is neither a float nor an int. *)
Definition above_bounds (n : Z) (a : pyarg) : Prop :=
  match a with
  | PyNone => True
  | PyInt k => (n < k)%Z
  | PyFloat f => 1 < f
  end.

(** A count or a fraction that is not negative. *)
Definition nonnegative (a : pyarg) : Prop :=
  match a with
  | PyNone => True
  | PyInt k => (0 <= k)%Z
  | PyFloat f => 0 <= f
  end.

(** The same static data with other charges. *)
Definition with_charges (i : SystemInfo) (q : list R) : SystemInfo :=
  {| sigma := sigma i; cutoff_radius := cutoff_radius i; epsilon0 := epsilon0 i;
     particle_charges := q; char_length := char_length i; periods := periods i |}.

(** Two particles of charges 1 and 2, and the same two in the other order. *)
Definition two_charges : list R := [1; 2].
Definition two_positions : ndarray := [ (0, 0, 0); (0.5, 0, 0) ].
Definition two_charges_swapped : list R := [2; 1].
Definition two_positions_swapped : ndarray := [ (0.5, 0, 0); (0, 0, 0) ].

(** ** Basic facts *)

Lemma py_inv_ok (x : R) : x <> 0 -> py_inv x = Ok (/ x).
Proof.
  intros Hx. unfold py_inv. destruct (Req_dec_T x 0); [contradiction | reflexivity].
Qed.

Lemma py_inv_zero (x : R) : x = 0 -> py_inv x = Err ZeroDivisionError.
Proof.
  intros Hx. unfold py_inv. destruct (Req_dec_T x 0); [reflexivity | contradiction].
Qed.

Lemma Rleb_true (x y : R) : x <= y -> Rleb x y = true.
Proof. intros H. unfold Rleb. destruct (Rle_dec x y); [reflexivity | contradiction]. Qed.

Lemma Rleb_false (x y : R) : y < x -> Rleb x y = false.
Proof. intros H. unfold Rleb. destruct (Rle_dec x y); [lra | reflexivity]. Qed.

Lemma Rltb_true (x y : R) : x < y -> Rltb x y = true.
Proof. intros H. unfold Rltb. destruct (Rlt_dec x y); [reflexivity | contradiction]. Qed.

Lemma Rltb_false (x y : R) : y <= x -> Rltb x y = false.
Proof. intros H. unfold Rltb. destruct (Rlt_dec x y); [lra | reflexivity]. Qed.

Lemma Rltb_iff (x y : R) : Rltb x y = true <-> x < y.
Proof.
  unfold Rltb. destruct (Rlt_dec x y); split; intros; try assumption;
    try reflexivity; try discriminate; contradiction.
Qed.

Lemma pair_term_is_array (i : SystemInfo) (qi qj : R) (p q : vec3) :
  is_array (pair_term i qi qj p q).
Proof.
  unfold pair_term. destruct p as [[a b] c], q as [[x y] z]. exact I.
Qed.

Lemma nd_add_is_array (acc t : ndval) : is_array t -> is_array (nd_add acc t).
Proof.
  destruct t as [x | v]; [contradiction |]. intros _. destruct acc; exact I.
Qed.

Section ShortSum.

Variable i : SystemInfo.
Variable pos : ndarray.

Let term (a b : nat) : ndval :=
  pair_term i (nth a (particle_charges i) 0) (nth b (particle_charges i) 0)
            (row pos a) (row pos b).

Lemma inner_loop_is_array (a : nat) (idx : list nat) (acc : ndval) :
  is_array acc \/ idx <> [] ->
  is_array (fold_left (fun acc' b => nd_add acc' (term a b)) idx acc).
Proof.
  revert acc. induction idx as [| b idx IH]; intros acc H; simpl.
  - destruct H as [H | H]; [assumption | contradiction].
  - apply IH. left. apply nd_add_is_array, pair_term_is_array.
Qed.

Lemma outer_loop_is_array (idx rows : list nat) (acc : ndval) :
  is_array acc \/ (idx <> [] /\ rows <> []) ->
  is_array (fold_left
              (fun acc0 a => fold_left (fun acc' b => nd_add acc' (term a b)) idx acc0)
              rows acc).
Proof.
  revert acc. induction rows as [| a rows IH]; intros acc H; simpl.
  - destruct H as [H | [_ H]]; [assumption | contradiction].
  - apply IH. left. apply inner_loop_is_array.
    destruct H as [H | [H _]]; [left | right]; assumption.
Qed.

Lemma shortsum_is_array : particle_charges i <> [] -> is_array (shortsum i pos).
Proof.
  intros Hq. unfold shortsum. apply outer_loop_is_array. right.
  destruct (particle_charges i); [contradiction | split; discriminate].
Qed.

End ShortSum.

(** With at least one charge, whatever [energy] returns is an array. *)
Lemma energy_of_is_array (i : SystemInfo) (pos : ndarray) (v : ndval) :
  particle_charges i <> [] -> energy_of i pos = Ok v -> is_array v.
Proof.
  intros Hq. unfold energy_of.
  destruct (length pos <? length (particle_charges i))%nat; [discriminate |].
  destruct (py_inv (8 * PI * epsilon0 i)) as [c1 |]; [| discriminate].
  destruct (py_inv (volume i * epsilon0 i)) as [c2 |]; [| discriminate].
  destruct (py_inv (2 * epsilon0 i * sigma i * Rpower (2 * PI) (3 / 2))) as [c3 |];
    [| discriminate].
  simpl. intros H. injection H as <-.
  pose proof (shortsum_is_array i pos Hq) as Hs.
  destruct (shortsum i pos); [contradiction | exact I].
Qed.

(** With no charge the double loop is empty and the energy is a float. *)
Lemma energy_of_no_charge (i : SystemInfo) (pos : ndarray) (v : ndval) :
  particle_charges i = [] -> energy_of i pos = Ok v -> v = Scalar 0.
Proof.
  intros Hq. unfold energy_of, shortsum. rewrite Hq. simpl.
  destruct (py_inv (8 * PI * epsilon0 i)) as [c1 |]; [| discriminate].
  destruct (py_inv (volume i * epsilon0 i)) as [c2 |]; [| discriminate].
  destruct (py_inv (2 * epsilon0 i * sigma i * Rpower (2 * PI) (3 / 2))) as [c3 |];
    [| discriminate].
  simpl. intros H. injection H as <-. f_equal. lra.
Qed.

(** ** Construction (C2) *)

(** C2.  Constructing a [System] never succeeds: [System.__init__] calls
    [SystemInfo] with four arguments where five are required, so every
    construction raises [TypeError] and no system with a one-element history
    results. *)
Theorem System_init_raises (h : heap) (L s : R) (q : list R) (p : ndarray) :
  System_init h L s q p = Err TypeError.
Proof. reflexivity. Qed.

(** With the fifth argument supplied, [SystemInfo.__init__] does succeed. *)
Lemma SystemInfo_init_with_periods (L s n : R) (q : list R) :
  exists i, SystemInfo_init L s q (Some n) = Ok i /\ cutoff i = s * 2.5 /\ epsilon0 i = 1.
Proof. eexists. split; [reflexivity | split; reflexivity]. Qed.

(** ** The Metropolis test (C1, C10) *)

Lemma Simulator_p_acc_scalar (beta e_prev e_prop : R) :
  Simulator_p_acc beta (Scalar e_prev) (Scalar e_prop)
  = Ok (Rmin 1 (exp (beta * (e_prop - e_prev)))).
Proof. reflexivity. Qed.

(** On float energies the code's probability is 1 for every energy
    increase. *)
Lemma Simulator_p_acc_increase (beta e_prev e_prop : R) :
  0 <= beta -> e_prev <= e_prop ->
  Simulator_p_acc beta (Scalar e_prev) (Scalar e_prop) = Ok 1.
Proof.
  intros Hb He. rewrite Simulator_p_acc_scalar. f_equal.
  apply Rmin_left. rewrite <- exp_0.
  destruct (Req_dec_T (beta * (e_prop - e_prev)) 0) as [-> | Hne]; [lra |].
  left. apply exp_increasing. nra.
Qed.

(** ... and below 1 for every energy decrease. *)
Lemma Simulator_p_acc_decrease (beta e_prev e_prop : R) :
  0 < beta -> e_prop < e_prev ->
  exists p, Simulator_p_acc beta (Scalar e_prev) (Scalar e_prop) = Ok p /\ p < 1.
Proof.
  intros Hb He. rewrite Simulator_p_acc_scalar. eexists. split; [reflexivity |].
  assert (H : exp (beta * (e_prop - e_prev)) < 1).
  { rewrite <- exp_0. apply exp_increasing. nra. }
  rewrite Rmin_right; lra.
Qed.

Lemma k_B_pos : 0 < k_B.
Proof. unfold k_B. lra. Qed.

Lemma exp_neg_inv_k_B : exp (- / k_B) < 0.5.
Proof.
  assert (Hb : 1 < / k_B).
  { rewrite <- Rinv_1. apply Rinv_lt_contravar; unfold k_B; lra. }
  rewrite exp_Ropp.
  assert (He : 2 < exp (/ k_B)).
  { pose proof (exp_ineq1 (/ k_B)) as H. lra. }
  replace 0.5 with (/ 2) by lra.
  apply Rinv_lt_contravar; [| exact He].
  apply Rmult_lt_0_compat; lra.
Qed.

(** C1.  At temperature 1 (so [beta = 1 / k_B]), current energy 1.0 and
    candidate energy 0.0 (an energy decrease) the code's acceptance
    probability is [exp (-1 / k_B)], below one half, and the draw [u = 0.5],
    one [np.random.random()] can return, is rejected; the claim's [p] is 1
    there and accepts every draw. *)
Theorem Simulator_accept_rejects_energy_decrease :
  Simulator_p_acc (/ (k_B * 1)) (Scalar 1) (Scalar 0) = Ok (exp (- / k_B))
  /\ exp (- / k_B) < 0.5
  /\ uniform_ok move_first
  /\ Simulator_accept (/ (k_B * 1)) (Scalar 1) (Scalar 0) (uniform move_first)
     = Ok false.
Proof.
  pose proof exp_neg_inv_k_B as Hlt.
  assert (Hp : Simulator_p_acc (/ (k_B * 1)) (Scalar 1) (Scalar 0) = Ok (exp (- / k_B))).
  { rewrite Simulator_p_acc_scalar. f_equal.
    replace (/ (k_B * 1) * (0 - 1)) with (- / k_B) by (rewrite Rmult_1_r; lra).
    apply Rmin_right. lra. }
  split; [exact Hp | split; [exact Hlt |]].
  split; [unfold uniform_ok, move_first; cbn [uniform]; lra |].
  unfold Simulator_accept. rewrite Hp. cbn [bind move_first uniform]. f_equal.
  apply Rleb_false. exact Hlt.
Qed.

(** [Simulator.act] stops at line 93, whatever the system. *)
Lemma Simulator_act_raises (w : World) (temperature : R) (d : Draw) :
  Simulator_act w temperature d = Err AttributeError.
Proof. reflexivity. Qed.

(** The division of line 109 is defined exactly for a nonzero temperature. *)
Lemma beta_defined_iff (temperature : R) :
  py_inv (k_B * temperature) = Err ZeroDivisionError <-> temperature = 0.
Proof.
  pose proof k_B_pos as Hk. split; intros H.
  - unfold py_inv in H. destruct (Req_dec_T (k_B * temperature) 0) as [E | E];
      [| discriminate].
    destruct (Rmult_integral _ _ E); [lra | assumption].
  - apply py_inv_zero. subst. lra.
Qed.

(** C10 as stated fails: [simulate] with temperature 0 and one step does not
    reach the division; it raises [AttributeError] in [Simulator.act]. *)
Lemma simulate_zero_temperature_no_division :
  MCMC_simulate one_particle 1 0 (fun _ => move_first) = Err AttributeError
  /\ MCMC_simulate one_particle 1 0 (fun _ => move_first) <> Err ZeroDivisionError.
Proof. split; [reflexivity | discriminate]. Qed.

(** C10 (amended).  [Simulator._check] divides by [k_B * temperature] without
    a guard, as its first statement: called with temperature 0 it raises
    [ZeroDivisionError] for every system, state and draw, and does not fall
    back to the greedy test. *)
Theorem Simulator_check_zero_temperature (w : World) (s : SystemState) (d : Draw) :
  Simulator_check w s 0 d = Err ZeroDivisionError.
Proof.
  unfold Simulator_check. rewrite py_inv_zero; [reflexivity | lra].
Qed.

(** ** The energy (C4) *)

Lemma Rpower_2PI_pos : 0 < Rpower (2 * PI) (3 / 2).
Proof. unfold Rpower. apply exp_pos. Qed.

(** [energy] returns, and what it returns, once no Python division is by
    zero and every charge has a position. *)
Lemma energy_of_ok (i : SystemInfo) (pos : ndarray) :
  (length (particle_charges i) <= length pos)%nat ->
  epsilon0 i <> 0 -> char_length i <> 0 -> sigma i <> 0 ->
  energy_of i pos
  = Ok (nd_sub
          (nd_add (nd_mul (Scalar (/ (8 * PI * epsilon0 i))) (shortsum i pos))
                  (Scalar (/ (volume i * epsilon0 i) * 0)))
          (Scalar (/ (2 * epsilon0 i * sigma i * Rpower (2 * PI) (3 / 2))
                   * sum_squares (particle_charges i)))).
Proof.
  intros Hlen He HL Hs. unfold energy_of.
  destruct (Nat.ltb_spec (length pos) (length (particle_charges i))) as [Hlt | _];
    [lia |].
  pose proof PI_RGT_0 as Hpi. pose proof Rpower_2PI_pos as Hpw.
  assert (H1 : 8 * PI * epsilon0 i <> 0).
  { apply Rmult_integral_contrapositive_currified; [lra | assumption]. }
  assert (H2 : volume i * epsilon0 i <> 0).
  { apply Rmult_integral_contrapositive_currified; [| assumption].
    unfold volume. apply pow_nonzero. assumption. }
  assert (H3 : 2 * epsilon0 i * sigma i * Rpower (2 * PI) (3 / 2) <> 0).
  { repeat apply Rmult_integral_contrapositive_currified; try assumption; lra. }
  rewrite (py_inv_ok _ H1), (py_inv_ok _ H2), (py_inv_ok _ H3). reflexivity.
Qed.

Lemma norm_origin : norm (vsub (0, 0, 0) (0, 0, 0)) = 0.
Proof.
  unfold norm, vsub, vzip.
  replace ((0 - 0) * (0 - 0) + (0 - 0) * (0 - 0) + (0 - 0) * (0 - 0)) with 0 by lra.
  apply sqrt_0.
Qed.

(** C4.  For the one-particle system (L = 1, sigma = 1, charge 1 at the
    origin, one periodic image) the claim's real-space sum has no pair and
    the energy would be the float [- / (2 * (2 * PI)^1.5)].  The code returns
    an array of three equal components, each of which also holds the summand
    of the pair (0, 0): the loops do not skip [i = j], and the charge product
    is divided by the vector [pos[i] - pos[j] + n*L], not by a distance. *)
Theorem energy_one_particle_is_array_with_self_pair :
  energy one_particle {| positions := 0%nat |}
  = Ok (Array3 (one_particle_component, one_particle_component, one_particle_component)).
Proof.
  unfold energy. cbn [info system one_particle systemInfo arrays positions load nth].
  rewrite energy_of_ok; cbn [unit_info particle_charges epsilon0 char_length sigma length];
    try lra; [| lia].
  unfold shortsum, pair_term.
  cbn [unit_info particle_charges periods char_length sigma length seq fold_left nth row].
  rewrite norm_origin.
  unfold volume, sum_squares, one_particle_component.
  cbn [unit_info char_length fold_right nd_sub nd_add nd_mul nd_div nd_zip vmap vzip vsub].
  pose proof PI_RGT_0 as Hpi. pose proof Rpower_2PI_pos as Hpw.
  replace ((0 + 1 * 1) / (sqrt 2 * 1)) with (1 / sqrt 2).
  2:{ replace (sqrt 2 * 1) with (sqrt 2) by lra. f_equal. lra. }
  replace (8 * PI * 1) with (8 * PI) by lra.
  replace (2 * 1 * 1 * Rpower (2 * PI) (3 / 2)) with (2 * Rpower (2 * PI) (3 / 2)) by lra.
  set (a := / (8 * PI)). set (b := / (2 * Rpower (2 * PI) (3 / 2))).
  set (c := erfc (1 / sqrt 2)).
  assert (Hq : 0 + 1 * 1 * / (0 - 0 + 1 * 1) * c = c).
  { replace (0 - 0 + 1 * 1) with 1 by lra. rewrite Rinv_1. lra. }
  unfold Rdiv. rewrite Hq.
  replace (a * c + / (1 ^ 3 * 1) * 0 - b * (1 * 1 + 0)) with (a * c - b) by lra.
  reflexivity.
Qed.

(** ** Proposals and the greedy step (C5, C6) *)

Lemma multivariate_normal_ok (cov : R) : 0 < cov -> multivariate_normal cov = Ok tt.
Proof.
  intros H. unfold multivariate_normal. destruct (Rlt_dec 0 cov); [reflexivity | contradiction].
Qed.

Lemma truth_le_array_l (a b : ndval) : is_array a -> truth_le a b = Err ValueError.
Proof. destruct a; [contradiction | reflexivity]. Qed.

Lemma truth_le_array_r (a b : ndval) : is_array b -> truth_le a b = Err ValueError.
Proof. destruct a, b; try contradiction; reflexivity. Qed.

(** The proposal state of [Optimizer._propose] holds the address of the
    current state's array, and the history is untouched: after the call the
    current state reads the proposal's positions. *)
Lemma Optimizer_propose_shares_array (w w' : World) (cov : R) (a : pyarg) (d : Draw)
    (s : SystemState) (e : ndval) :
  Optimizer_propose w cov a d = Ok (s, e, w') ->
  state w = Ok s /\ state w' = Ok s /\ energy w' s = Ok e.
Proof.
  unfold Optimizer_propose. destruct (state w) as [st |] eqn:Hst; [| discriminate].
  cbn [bind].
  destruct (propose_size _ a) as [k |]; [| discriminate]. cbn [bind].
  destruct (random_choice _ k false (choice d)) as [particles |]; [| discriminate].
  cbn [bind].
  destruct (multivariate_normal cov); [| discriminate]. cbn [bind].
  match goal with
  | |- context [energy ?w1 ?s1] => destruct (energy w1 s1) as [e1 |] eqn:He
  end; [| discriminate].
  cbn [bind]. intros H. injection H as <- <- <-.
  destruct st as [l]. cbn [positions] in *.
  repeat split; [exact Hst | exact He].
Qed.

(** [Simulator._metropolis] allocates: the proposal state holds a new address
    and every array that existed before keeps its contents. *)
Lemma Simulator_metropolis_fresh (w w' : World) (idx : list nat) (cov : R) (d : Draw)
    (s : SystemState) :
  Simulator_metropolis w idx cov d = Ok (s, w') ->
  positions s = length (arrays w)
  /\ forall l, (l < length (arrays w))%nat -> load (arrays w') l = load (arrays w) l.
Proof.
  unfold Simulator_metropolis. destruct (state w) as [st |]; [| discriminate].
  cbn [bind]. destruct idx as [| i idx]; [discriminate |].
  destruct (multivariate_normal cov); [| discriminate]. cbn [bind alloc].
  intros H. injection H as <- <-. cbn [positions arrays]. split; [reflexivity |].
  intros l Hl. unfold load. apply app_nth1. exact Hl.
Qed.

(** One run of [_propose] on the one-particle system. *)
Lemma propose_one_particle :
  exists e w',
    Optimizer_propose one_particle 1 (PyInt 1) move_first
    = Ok ({| positions := 0%nat |}, e, w')
    /\ is_array e
    /\ load (arrays w') 0%nat = [ (1, 0, 0) ]
    /\ states w' = states one_particle.
Proof.
  unfold Optimizer_propose.
  cbn [state states one_particle system systemStates rev app bind arrays positions
       load nth length Z.of_nat propose_size].
  cbn [Z.leb Z.compare Pos.compare Pos.compare_cont Pos.of_succ_nat bind].
  cbn [random_choice move_first choice normal Z.ltb Z.leb Z.eqb Z.compare
       Pos.compare Pos.compare_cont andb negb bind].
  rewrite multivariate_normal_ok by lra.
  change (Z.to_nat 1) with 1%nat.
  cbn [bind rvs seq map gather combine row nth fst snd scatter set_row store vadd vzip].
  unfold energy.
  cbn [info system systemInfo arrays positions load nth].
  match goal with
  | |- context [energy_of ?i ?p] => destruct (energy_of i p) as [e |] eqn:He
  end.
  - cbn [bind]. do 2 eexists. split; [reflexivity |]. split; [| split].
    + eapply energy_of_is_array; [| exact He]. discriminate.
    + cbn [arrays load nth]. repeat f_equal; lra.
    + reflexivity.
  - exfalso. rewrite energy_of_ok in He;
      cbn [unit_info particle_charges epsilon0 char_length sigma length]; try lra; [| lia].
    discriminate.
Qed.

(** C6.  [Optimizer._propose] does not return a fresh array: on the
    one-particle system, selecting particle 0 with displacement (1, 0, 0),
    the proposal state holds the address of the current state's array, and
    that array, [(0, 0, 0)] before the call, reads [(1, 0, 0)] after it. *)
Theorem Optimizer_propose_overwrites_current_positions :
  exists e w',
    Optimizer_propose one_particle 1 (PyInt 1) move_first
    = Ok ({| positions := 0%nat |}, e, w')
    /\ state one_particle = Ok {| positions := 0%nat |}
    /\ state w' = Ok {| positions := 0%nat |}
    /\ load (arrays one_particle) 0%nat = [ (0, 0, 0) ]
    /\ load (arrays w') 0%nat = [ (1, 0, 0) ].
Proof.
  destruct propose_one_particle as (e & w' & Hp & _ & Hl & Hs).
  exists e, w'. split; [exact Hp |].
  destruct (Optimizer_propose_shares_array _ _ _ _ _ _ _ Hp) as (H1 & H2 & _).
  repeat split; assumption || reflexivity.
Qed.

(** With at least one charge in the system, [Optimizer.act] returns nothing:
    both energies are arrays of three elements and [if proposal_energy <=
    orig_energy] has no truth value. *)
Lemma Optimizer_act_never_returns (w : World) (cov : R) (a : pyarg) (d : Draw)
    (r : SystemState * ndval * World) :
  particle_charges (info w) <> [] -> Optimizer_act w cov a d <> Ok r.
Proof.
  intros Hq. unfold Optimizer_act.
  destruct (state w) as [st |]; [| discriminate]. cbn [bind].
  destruct (energy w st) as [orig |] eqn:Ho; [| discriminate]. cbn [bind].
  destruct (Optimizer_propose w cov a d) as [[[p pe] w'] |]; [| discriminate].
  cbn [bind]. unfold Optimizer_check.
  rewrite truth_le_array_r; [discriminate |].
  apply (energy_of_is_array _ _ _ Hq Ho).
Qed.

(** C5.  On the one-particle system [Optimizer.act] returns neither the
    candidate nor the current state: the proposal is made (and written into
    the current array), and the comparison of the two energies, arrays of
    three elements, raises [ValueError]. *)
Theorem Optimizer_act_one_particle_raises :
  Optimizer_act one_particle 1 (PyInt 1) move_first = Err ValueError.
Proof.
  destruct propose_one_particle as (e & w' & Hp & He & _ & _).
  unfold Optimizer_act. rewrite Hp.
  cbn [state states one_particle system systemStates rev app bind].
  destruct (energy one_particle {| positions := 0%nat |}) as [orig |] eqn:Ho.
  - cbn [bind]. unfold Optimizer_check. rewrite truth_le_array_l by exact He. reflexivity.
  - exfalso. unfold energy in Ho.
    cbn [info system one_particle systemInfo arrays positions load nth] in Ho.
    rewrite energy_of_ok in Ho;
      cbn [unit_info particle_charges epsilon0 char_length sigma length]; try lra; [| lia].
    discriminate.
Qed.

(** ** The indices [Simulator.act] selects (C8) *)

Lemma Zceil_tenth_of_20 : Zceil (0.1 * INR 20) = 2%Z.
Proof.
  apply Zceil_eq. rewrite INR_IZR_INZ. change (Z.of_nat 20) with 20%Z. lra.
Qed.

(** The number of indices is the one line 95 asks for. *)
Lemma Simulator_indices_size (n : nat) (d : Draw) (l : list nat) :
  choice_ok (Z.of_nat n) (Zceil (0.1 * INR n)) true (choice d) ->
  Simulator_indices n d = Ok l ->
  Z.of_nat (length l) = Zceil (0.1 * INR n) /\ Forall (fun i => (i < n)%nat) l.
Proof.
  intros (Hlen & Hall & _). unfold Simulator_indices, random_choice.
  destruct (Zceil (0.1 * INR n) <? 0)%Z; [discriminate |].
  destruct ((Z.of_nat n <=? 0)%Z && negb (Zceil (0.1 * INR n) =? 0)%Z); [discriminate |].
  cbn [negb andb]. intros H. injection H as <-. split; [exact Hlen |].
  eapply Forall_impl; [| exact Hall]. cbn beta. intros i Hi. lia.
Qed.

(** C8.  With 20 particles [Simulator.act] asks [np.random.choice] for
    ceil(0.1 * 20) = 2 indices without passing [replace=False]; the sample
    [3; 3] is one the call can return, and it is what line 95 then selects:
    two entries, one distinct particle. *)
Theorem Simulator_indices_may_repeat :
  Zceil (0.1 * INR 20) = 2%Z
  /\ choice_ok 20 (Zceil (0.1 * INR 20)) true (choice third_twice)
  /\ Simulator_indices 20 third_twice = Ok [3%nat; 3%nat]
  /\ ~ NoDup [3%nat; 3%nat].
Proof.
  pose proof Zceil_tenth_of_20 as Hc. split; [exact Hc |]. split; [| split].
  - rewrite Hc. split; [reflexivity | split].
    + repeat constructor.
    + discriminate.
  - unfold Simulator_indices. rewrite Hc. reflexivity.
  - intros H. inversion H as [| x l Hin _]; subst. apply Hin. left. reflexivity.
Qed.

(** ** The history kept by [optimize] (C3) *)

Lemma Optimizer_propose_system (w w' : World) (cov : R) (a : pyarg) (d : Draw)
    (s : SystemState) (e : ndval) :
  Optimizer_propose w cov a d = Ok (s, e, w') -> system w' = system w.
Proof.
  unfold Optimizer_propose. destruct (state w) as [st |]; [| discriminate].
  cbn [bind].
  destruct (propose_size _ a) as [k |]; [| discriminate]. cbn [bind].
  destruct (random_choice _ k false (choice d)) as [particles |]; [| discriminate].
  cbn [bind].
  destruct (multivariate_normal cov); [| discriminate]. cbn [bind].
  match goal with
  | |- context [energy ?w1 ?s1] => destruct (energy w1 s1) as [e1 |]
  end; [| discriminate].
  cbn [bind]. intros H. injection H as <- <- <-. reflexivity.
Qed.

Lemma Optimizer_act_system (w w' : World) (cov : R) (a : pyarg) (d : Draw)
    (s : SystemState) (e : ndval) :
  Optimizer_act w cov a d = Ok (s, e, w') -> system w' = system w.
Proof.
  unfold Optimizer_act. destruct (state w) as [st |]; [| discriminate]. cbn [bind].
  destruct (energy w st) as [orig |]; [| discriminate]. cbn [bind].
  destruct (Optimizer_propose w cov a d) as [[[p pe] w1] |] eqn:Hp; [| discriminate].
  cbn [bind]. apply Optimizer_propose_system in Hp.
  destruct (Optimizer_check orig pe) as [[|] |]; [| | discriminate]; cbn [bind].
  - intros H. injection H as <- <- <-. exact Hp.
  - destruct (state w1); [| discriminate]. cbn [bind].
    intros H. injection H as <- <- <-. exact Hp.
Qed.

(** Every iteration of the loop appends one state and one energy. *)
Lemma optimize_loop_history (steps i : nat) (w w' : World) (es es' : list ndval)
    (cov tol : R) (npb : Z) (a : pyarg) (rng : nat -> Draw) :
  optimize_loop steps i w es cov tol npb a rng = Ok (w', es') ->
  (length (states w') + length es = length (states w) + length es')%nat.
Proof.
  revert i w es. induction steps as [| steps IH]; intros i w es; cbn [optimize_loop].
  - intros H. injection H as <- <-. lia.
  - destruct (Optimizer_act w cov a (rng i)) as [[[s e] w1] |] eqn:Ha; [| discriminate].
    cbn [bind]. apply Optimizer_act_system in Ha.
    assert (Hs : length (states (update_state w1 s)) = S (length (states w))).
    { unfold states, update_state. cbn [system systemStates]. rewrite Ha, length_app.
      cbn [length]. lia. }
    destruct (no_progress (es ++ [e]) e npb tol).
    + intros H. injection H as <- <-. rewrite Hs, length_app. cbn [length]. lia.
    + intros H. apply IH in H. rewrite Hs, length_app in H. cbn [length] in H. lia.
Qed.

(** Whenever [optimize] returns, with the flag set or not, the history is
    the one before the call extended by one state per energy recorded. *)
Lemma MCMC_optimize_history (w w' : World) (max_steps : Z) (cov : option R) (tol : R)
    (npb : Z) (a : pyarg) (drop : bool) (rng : nat -> Draw) (es : list ndval) :
  MCMC_optimize w max_steps cov tol npb a drop rng = Ok (w', es) ->
  length (states w') = (length (states w) + length es)%nat.
Proof.
  unfold MCMC_optimize.
  destruct (optimize_loop _ 0 w [] _ tol npb a rng) as [[w1 es1] |] eqn:Hl; [| discriminate].
  cbn [bind]. apply optimize_loop_history in Hl. cbn [length] in Hl.
  destruct drop.
  - destruct (state w1); [| discriminate]. cbn [bind].
    intros H. injection H as <- <-. unfold states in *. cbn [system systemStates]. lia.
  - intros H. injection H as <- <-. lia.
Qed.

(** C3.  A system whose history holds two states, optimised with
    [max_steps = 0] and [drop_intermediate_states = True]: the call
    completes, no step is executed and the energy list is empty, and the
    history still holds both states.  The final assignment went to the
    attribute [_systemStates], which [states()] does not read. *)
Theorem optimize_drop_keeps_history (rng : nat -> Draw) :
  exists w',
    MCMC_optimize one_particle_two_states 0 None 1e-6 250 (PyFloat 0.5) true rng
    = Ok (w', [])
    /\ states w' = states one_particle_two_states
    /\ length (states w') = 2%nat
    /\ attr_systemStates (system w') = Some [ {| positions := 1%nat |} ].
Proof. eexists. repeat split. Qed.

(** ** The subset size [_propose] accepts (C9) *)

Lemma set_row_length (a : ndarray) (i : nat) (v : vec3) :
  length (set_row a i v) = length a.
Proof.
  revert i. induction a as [| h t IH]; intros [| j]; cbn [set_row length];
    try reflexivity. now rewrite IH.
Qed.

Lemma scatter_length (idx : list nat) (a rows : ndarray) :
  length (scatter a idx rows) = length a.
Proof.
  revert a rows. induction idx as [| i idx IH]; intros a [| r rows]; cbn [scatter];
    try reflexivity. now rewrite IH, set_row_length.
Qed.

(** Writing an array of the same length at an address leaves the length of
    what the address reads unchanged (also for an address not in use). *)
Lemma load_store_length (h : heap) (l : loc) (a : ndarray) :
  length a = length (load h l) -> length (load (store h l a) l) = length (load h l).
Proof.
  unfold load. revert l. induction h as [| x t IH]; intros [| k] Ha; cbn [store nth] in *;
    try reflexivity; try exact Ha. apply IH. exact Ha.
Qed.

Lemma py_int_zero : py_int 0 = 0%Z.
Proof.
  unfold py_int. destruct (Rle_dec 0 0); [apply (ZfloorZ 0) | apply (Zceil_eq 0); lra].
Qed.

Lemma py_int_le (n : Z) (f : R) :
  (0 <= n)%Z -> f <= 1 -> (0 <= py_int (IZR n * f))%Z -> (py_int (IZR n * f) <= n)%Z.
Proof.
  intros Hn Hf. pose proof (IZR_le _ _ Hn) as Hn'. unfold py_int.
  destruct (Rle_dec 0 (IZR n * f)) as [Hx | Hx]; intros Hp.
  - pose proof (Zfloor_bound (IZR n * f)) as [Hlo _]. apply le_IZR. nra.
  - pose proof (Zceil_bound (IZR n * f)) as [Hlo _]. apply Rnot_le_lt in Hx.
    assert (H1 : IZR (Zceil (IZR n * f)) < 1).
    { remember (IZR n * f) as x. remember (IZR (Zceil x)) as c. clear - Hx Hlo. lra. }
    apply lt_IZR in H1. lia.
Qed.

Lemma random_choice_no_replace_ok (n k : Z) (draw : list nat) :
  (0 <= k <= n)%Z -> random_choice n k false draw = Ok draw.
Proof.
  intros [H0 Hn]. unfold random_choice.
  destruct (Z.ltb_spec k 0); [lia |].
  destruct (Z.leb_spec n 0); cbn [andb negb].
  - destruct (Z.eqb_spec k 0); [cbn [negb] | lia].
    destruct (Z.ltb_spec n k); [lia | reflexivity].
  - destruct (Z.ltb_spec n k); [lia | reflexivity].
Qed.

Lemma random_choice_negative (n k : Z) (replace : bool) (draw : list nat) :
  (k < 0)%Z -> random_choice n k replace draw = Err ValueError.
Proof.
  intros H. unfold random_choice. destruct (Z.ltb_spec k 0); [reflexivity | lia].
Qed.

(** C9 as stated fails: the fraction 0.0 lies outside (0, 1], and [_propose]
    raises nothing for it on the one-particle system; it selects no particle
    and returns a proposal. *)
Lemma Optimizer_propose_accepts_zero_fraction :
  ~ (0 < 0 <= 1)
  /\ propose_size 1 (PyFloat 0) = Ok 0%Z
  /\ exists r, Optimizer_propose one_particle 1 (PyFloat 0) move_none = Ok r.
Proof.
  split; [lra |].
  assert (Hs : propose_size 1 (PyFloat 0) = Ok 0%Z).
  { unfold propose_size. destruct (Rle_dec 0 1); [| lra].
    replace (1 * 0) with 0 by lra. now rewrite py_int_zero. }
  split; [exact Hs |].
  unfold Optimizer_propose.
  cbn [state states one_particle system systemStates rev app bind arrays positions
       load nth length Z.of_nat Pos.of_succ_nat].
  rewrite Hs. cbn [bind]. rewrite random_choice_no_replace_ok by lia. cbn [bind].
  rewrite multivariate_normal_ok by lra.
  change (Z.to_nat 0) with 0%nat.
  cbn [bind move_none choice rvs seq map gather combine scatter store].
  unfold energy. cbn [info system systemInfo arrays positions load nth].
  rewrite energy_of_ok;
    cbn [unit_info particle_charges epsilon0 char_length sigma length]; try lra; [| lia].
  cbn [bind]. eexists. reflexivity.
Qed.

(** C9 (amended).  For a system with a current state, a positive covariance
    and an energy that can be evaluated, and for a subset specification that
    is not negative: [_propose] raises [ValueError] exactly when the
    specification is above its bound (a fraction above 1, a count above N)
    or is neither a float nor an int; a fraction in [0, 1], 0.0 included,
    and a count in [0, N] raise nothing and a proposal is returned. *)
Theorem Optimizer_propose_raises_iff (w : World) (cov : R) (a : pyarg) (d : Draw)
    (st : SystemState) :
  state w = Ok st ->
  0 < cov ->
  (length (particle_charges (info w)) <= length (load (arrays w) (positions st)))%nat ->
  epsilon0 (info w) <> 0 -> char_length (info w) <> 0 -> sigma (info w) <> 0 ->
  nonnegative a ->
  let n := Z.of_nat (length (load (arrays w) (positions st))) in
  (above_bounds n a -> Optimizer_propose w cov a d = Err ValueError)
  /\ (~ above_bounds n a -> exists r, Optimizer_propose w cov a d = Ok r).
Proof.
  intros Hst Hcov Hlen He HL Hs Hnn n.
  assert (Hn : (0 <= n)%Z) by (unfold n; lia).
  assert (Hok : forall k, (0 <= k <= n)%Z -> propose_size n a = Ok k ->
                exists r, Optimizer_propose w cov a d = Ok r).
  { intros k Hk Hp. unfold Optimizer_propose. rewrite Hst. cbn [bind].
    fold n. rewrite Hp. cbn [bind].
    rewrite random_choice_no_replace_ok by exact Hk. cbn [bind].
    rewrite multivariate_normal_ok by exact Hcov. cbn [bind].
    unfold energy. cbn [arrays positions info system].
    rewrite energy_of_ok; try assumption.
    - cbn [bind]. eexists. reflexivity.
    - rewrite load_store_length; [exact Hlen | apply scatter_length]. }
  assert (Hbad : propose_size n a = Err ValueError ->
                 Optimizer_propose w cov a d = Err ValueError).
  { intros Hp. unfold Optimizer_propose. rewrite Hst. cbn [bind].
    fold n. rewrite Hp. reflexivity. }
  destruct a as [| k | f]; cbn [above_bounds nonnegative] in *.
  - split; [intros _; apply Hbad; reflexivity | intros H; exfalso; apply H; exact I].
  - split.
    + intros H. apply Hbad. cbn [propose_size].
      destruct (Z.leb_spec k n); [lia | reflexivity].
    + intros H. apply (Hok k); [lia |]. cbn [propose_size].
      destruct (Z.leb_spec k n); [reflexivity | lia].
  - split.
    + intros H. apply Hbad. cbn [propose_size].
      destruct (Rle_dec f 1); [lra | reflexivity].
    + intros H. apply Rnot_lt_le in H.
      assert (Hx : 0 <= IZR n * f).
      { apply Rmult_le_pos; [apply IZR_le, Hn | exact Hnn]. }
      assert (Hp : (0 <= py_int (IZR n * f))%Z).
      { unfold py_int. destruct (Rle_dec 0 (IZR n * f)); [| contradiction].
        apply (Zfloor_lub 0). exact Hx. }
      apply (Hok (py_int (IZR n * f))).
      * split; [exact Hp | apply py_int_le; assumption].
      * cbn [propose_size]. destruct (Rle_dec f 1); [reflexivity | contradiction].
Qed.

(** The hypotheses of [Optimizer_propose_raises_iff] hold on the one-particle
    system, for the size 1 and the draw that moves particle 0. *)
Lemma Optimizer_propose_raises_iff_witness :
  state one_particle = Ok {| positions := 0%nat |}
  /\ 0 < 1
  /\ nonnegative (PyInt 1)
  /\ (above_bounds 1 (PyInt 1) ->
      Optimizer_propose one_particle 1 (PyInt 1) move_first = Err ValueError)
  /\ (~ above_bounds 1 (PyInt 1) ->
      exists r, Optimizer_propose one_particle 1 (PyInt 1) move_first = Ok r).
Proof.
  split; [reflexivity |]. split; [lra |]. split; [apply Z.le_0_1 |].
  apply (Optimizer_propose_raises_iff one_particle 1 (PyInt 1) move_first
           {| positions := 0%nat |}).
  - reflexivity.
  - lra.
  - apply le_n.
  - apply R1_neq_R0.
  - apply R1_neq_R0.
  - apply R1_neq_R0.
  - apply Z.le_0_1.
Defined.

(** ** Leaving the loop of [optimize] (C7) *)

Lemma all_close_iff (es : list ndval) (e : ndval) (tol : R) :
  all_close es e tol = true <-> Forall (close tol e) es.
Proof.
  unfold all_close, close. rewrite forallb_forall, Forall_forall.
  split; intros H x Hx; specialize (H x Hx).
  - rewrite forallb_forall in H. apply Forall_forall. intros d Hd.
    apply Rltb_iff, H, Hd.
  - apply forallb_forall. intros d Hd. rewrite Forall_forall in H.
    apply Rltb_iff, H, Hd.
Qed.

Lemma no_progress_iff (es : list ndval) (e : ndval) (window : Z) (tol : R) :
  no_progress (es ++ [e]) e window tol = true <-> plateau (es ++ [e]) window tol.
Proof.
  unfold no_progress, plateau. rewrite andb_true_iff, Z.ltb_lt, all_close_iff, last_last.
  reflexivity.
Qed.

(** For a window between 1 and the length of the list, the slice is the
    trailing window: the last [window] entries. *)
Lemma slice_from_trailing {A : Type} (window : nat) (l : list A) :
  (0 < window <= length l)%nat ->
  slice_from (- Z.of_nat window) l = skipn (length l - window) l
  /\ length (slice_from (- Z.of_nat window) l) = window.
Proof.
  intros H. unfold slice_from.
  destruct (Z.ltb_spec (- Z.of_nat window) 0); [| lia].
  replace (Z.to_nat (Z.max 0 (Z.of_nat (length l) + - Z.of_nat window)))
    with (length l - window)%nat by lia.
  split; [reflexivity | rewrite length_skipn; lia].
Qed.

Lemma Forall_skipn {A : Type} (P : A -> Prop) (n : nat) (l : list A) :
  Forall P l -> Forall P (skipn n l).
Proof.
  intros H. rewrite <- (firstn_skipn n l) in H. apply Forall_app in H. apply H.
Qed.

Lemma Forall_firstn {A : Type} (P : A -> Prop) (n : nat) (l : list A) :
  Forall P l -> Forall P (firstn n l).
Proof.
  intros H. rewrite <- (firstn_skipn n l) in H. apply Forall_app in H. apply H.
Qed.

Lemma Forall_last {A : Type} (P : A -> Prop) (l : list A) (d : A) :
  l <> [] -> Forall P l -> P (last l d).
Proof.
  intros Hl H. rewrite (app_removelast_last d Hl) in H. apply Forall_elt in H. exact H.
Qed.

Lemma close_refl (tol : R) (e : ndval) : 0 < tol -> close tol e e.
Proof.
  intros Ht. unfold close.
  destruct e as [x | [[x y] z]]; cbn [nd_sub nd_zip vzip elements];
    repeat constructor; rewrite Rminus_diag, Rabs_R0; exact Ht.
Qed.

(** A list of equal energies longer than the window is a plateau. *)
Lemma plateau_constant (trace : list ndval) (e : ndval) (window : Z) (tol : R) :
  0 < tol -> Forall (eq e) trace -> (window < Z.of_nat (length trace))%Z ->
  plateau trace window tol.
Proof.
  intros Ht He Hw. split; [exact Hw |].
  destruct trace as [| x t].
  { unfold slice_from. rewrite skipn_nil. constructor. }
  assert (Hl : last (x :: t) (Scalar 0) = e).
  { symmetry. apply (Forall_last (eq e)); [discriminate | exact He]. }
  rewrite Hl. unfold slice_from. apply Forall_skipn.
  eapply Forall_impl; [| exact He]. intros y <-. apply close_refl, Ht.
Qed.

(** The loop leaves at the first step after which [no_progress] holds. *)
Lemma optimize_loop_stops (steps i : nat) (w w' : World) (es es' : list ndval)
    (cov tol : R) (window : Z) (a : pyarg) (rng : nat -> Draw) :
  optimize_loop steps i w es cov tol window a rng = Ok (w', es') ->
  exists new,
    es' = es ++ new
    /\ (length new <= steps)%nat
    /\ ((length new < steps)%nat -> plateau es' window tol)
    /\ (forall j, (0 < j < length new)%nat -> ~ plateau (es ++ firstn j new) window tol).
Proof.
  revert i w es. induction steps as [| steps IH]; intros i w es; cbn [optimize_loop].
  - intros H. injection H as <- <-. exists []. rewrite app_nil_r.
    split; [reflexivity |]. cbn [length]. split; [lia |]. split; intros; lia.
  - destruct (Optimizer_act w cov a (rng i)) as [[[s e] w1] |]; [| discriminate].
    cbn [bind].
    destruct (no_progress (es ++ [e]) e window tol) eqn:Hn.
    + intros H. injection H as <- <-. exists [e]. cbn [length].
      split; [reflexivity |]. split; [lia |]. split.
      * intros _. apply no_progress_iff, Hn.
      * intros j Hj. lia.
    + intros H. apply IH in H. destruct H as (new & -> & Hlen & Hstop & Hgo).
      exists (e :: new). cbn [length]. rewrite <- app_assoc. cbn [app].
      split; [reflexivity |]. split; [lia |]. split.
      * intros Hlt. rewrite <- app_assoc in Hstop. apply Hstop. lia.
      * intros [| [| j]] Hj; [lia | |].
        -- cbn [firstn]. intros Hp. apply no_progress_iff in Hp. congruence.
        -- cbn [firstn]. specialize (Hgo (S j)). cbn [firstn] in Hgo.
           rewrite <- app_assoc in Hgo. apply Hgo. lia.
Qed.

(** C7 as stated fails: five equal energies with [plateau_window = 5] are at
    least [plateau_window] entries, each within the tolerance of the most
    recent one, and the test of the loop is false; the loop goes on. *)
Lemma no_progress_false_at_window :
  (5 <= Z.of_nat (length (repeat (Scalar 0) 5)))%Z
  /\ Forall (close 1e-6 (Scalar 0)) (slice_from (- 5) (repeat (Scalar 0) 5))
  /\ no_progress (repeat (Scalar 0) 5) (Scalar 0) 5 1e-6 = false.
Proof.
  split; [cbn; lia |]. split; [| reflexivity].
  unfold slice_from. apply Forall_skipn.
  repeat constructor; rewrite Rminus_diag, Rabs_R0; lra.
Qed.

(** C7 (amended).  When [optimize] returns, the number of steps executed
    (the length of the energy list) is at most [max_steps]; the loop left
    early only if the list then had MORE than [plateau_window] entries and
    every energy of the slice [[-plateau_window:]] was within the tolerance
    of the most recent one; after no earlier step was that so.  Hence, for a
    nonnegative window and energies that never change, exactly
    [min max_steps (plateau_window + 1)] steps are executed: six for a window
    of five. *)
Theorem MCMC_optimize_stops_on_plateau (w w' : World) (max_steps : Z) (cov : option R)
    (tol : R) (window : Z) (a : pyarg) (drop : bool) (rng : nat -> Draw)
    (es : list ndval) :
  MCMC_optimize w max_steps cov tol window a drop rng = Ok (w', es) ->
  (length es <= Z.to_nat max_steps)%nat
  /\ ((length es < Z.to_nat max_steps)%nat -> plateau es window tol)
  /\ (forall j, (0 < j < length es)%nat -> ~ plateau (firstn j es) window tol)
  /\ (forall e, (0 <= window)%Z -> 0 < tol -> Forall (eq e) es ->
        length es = Nat.min (Z.to_nat max_steps) (Z.to_nat window + 1)).
Proof.
  unfold MCMC_optimize.
  destruct (optimize_loop _ 0 w [] _ tol window a rng) as [[w1 es1] |] eqn:Hl;
    [| discriminate].
  cbn [bind]. intros H.
  assert (Hes : es1 = es).
  { destruct drop; [destruct (state w1); [| discriminate] |];
      cbn [bind] in H; injection H as _ <-; reflexivity. }
  subst es1. clear H.
  apply optimize_loop_stops in Hl. destruct Hl as (new & Hnew & Hlen & Hstop & Hgo).
  cbn [app] in Hnew, Hgo. subst new.
  split; [exact Hlen |]. split; [exact Hstop |]. split; [exact Hgo |].
  intros e Hw Ht He.
  set (c := (Z.to_nat window + 1)%nat).
  assert (Hc : (length es <= c)%nat).
  { destruct (Nat.le_gt_cases (length es) c) as [Hle | Hgt]; [exact Hle | exfalso].
    apply (Hgo c); [unfold c; lia |].
    apply (plateau_constant _ e); [exact Ht | apply Forall_firstn, He |].
    rewrite length_firstn. unfold c in *. lia. }
  destruct (Nat.lt_ge_cases (length es) (Z.to_nat max_steps)) as [Hlt | Hge].
  - destruct (Hstop Hlt) as [Hp _]. unfold c in Hc. lia.
  - unfold c in Hc. lia.
Qed.

(** *** A run on the system without particles *)

Lemma state_no_particles (k : nat) : state (no_particles k) = Ok {| positions := 0%nat |}.
Proof.
  unfold state, states, no_particles. cbn [system systemStates].
  rewrite rev_repeat. reflexivity.
Qed.

Lemma update_state_no_particles (k : nat) :
  update_state (no_particles k) {| positions := 0%nat |} = no_particles (S k).
Proof.
  unfold update_state, no_particles. cbn [arrays system systemInfo systemStates
                                          attr_systemStates].
  do 2 f_equal. rewrite <- repeat_cons. reflexivity.
Qed.

Lemma energy_no_particles (k : nat) :
  energy (no_particles k) {| positions := 0%nat |} = Ok (Scalar 0).
Proof.
  unfold energy. cbn [info no_particles system systemInfo arrays positions load nth].
  destruct (energy_of (unit_info []) []) as [v |] eqn:He.
  - f_equal. apply (energy_of_no_charge (unit_info []) [] v eq_refl He).
  - rewrite energy_of_ok in He;
      cbn [unit_info particle_charges epsilon0 char_length sigma length]; try lra; [| lia].
    discriminate.
Qed.

(** With no particle the proposal moves nothing, both energies are the float
    0.0, and the step is accepted. *)
Lemma Optimizer_act_no_particles (k : nat) (cov : R) (d : Draw) :
  0 < cov ->
  Optimizer_act (no_particles k) cov (PyFloat 0.5) d
  = Ok ({| positions := 0%nat |}, Scalar 0, no_particles k).
Proof.
  intros Hcov.
  assert (Hp : Optimizer_propose (no_particles k) cov (PyFloat 0.5) d
               = Ok ({| positions := 0%nat |}, Scalar 0, no_particles k)).
  { unfold Optimizer_propose. rewrite state_no_particles. cbn [bind].
    cbn [no_particles arrays positions load nth length Z.of_nat].
    assert (Hs : propose_size 0 (PyFloat 0.5) = Ok 0%Z).
    { unfold propose_size. destruct (Rle_dec 0.5 1); [| lra].
      replace (0 * 0.5) with 0 by lra. now rewrite py_int_zero. }
    rewrite Hs. cbn [bind]. rewrite random_choice_no_replace_ok by lia. cbn [bind].
    rewrite multivariate_normal_ok by exact Hcov.
    change (Z.to_nat 0) with 0%nat.
    cbn [bind rvs seq map combine].
    replace (combine (gather [] (choice d)) []) with (@nil (vec3 * vec3))
      by (destruct (gather [] (choice d)); reflexivity).
    cbn [map].
    replace (scatter [] (choice d) []) with (@nil vec3)
      by (destruct (choice d); reflexivity).
    cbn [store].
    change {| arrays := [ [] ]; system := system (no_particles k) |}
      with (no_particles k).
    rewrite energy_no_particles. reflexivity. }
  unfold Optimizer_act. rewrite state_no_particles. cbn [bind].
  rewrite energy_no_particles. cbn [bind]. rewrite Hp. cbn [bind].
  unfold Optimizer_check, truth_le. rewrite Rleb_true by lra. reflexivity.
Qed.

Lemma optimize_loop_no_particles_go (steps i k : nat) (es : list ndval) (cov tol : R)
    (window : Z) (rng : nat -> Draw) :
  0 < cov ->
  no_progress (es ++ [Scalar 0]) (Scalar 0) window tol = false ->
  optimize_loop (S steps) i (no_particles k) es cov tol window (PyFloat 0.5) rng
  = optimize_loop steps (S i) (no_particles (S k)) (es ++ [Scalar 0]) cov tol window
                  (PyFloat 0.5) rng.
Proof.
  intros Hcov Hn. cbn [optimize_loop].
  rewrite Optimizer_act_no_particles by exact Hcov. cbn [bind].
  rewrite Hn, update_state_no_particles. reflexivity.
Qed.

Lemma optimize_loop_no_particles_stop (steps i k : nat) (es : list ndval) (cov tol : R)
    (window : Z) (rng : nat -> Draw) :
  0 < cov ->
  no_progress (es ++ [Scalar 0]) (Scalar 0) window tol = true ->
  optimize_loop (S steps) i (no_particles k) es cov tol window (PyFloat 0.5) rng
  = Ok (no_particles (S k), es ++ [Scalar 0]).
Proof.
  intros Hcov Hn. cbn [optimize_loop].
  rewrite Optimizer_act_no_particles by exact Hcov. cbn [bind].
  rewrite Hn, update_state_no_particles. reflexivity.
Qed.

(** With [max_steps = 10], a window of 5 and the default arguments otherwise,
    the loop on the system without particles executes six steps. *)
Lemma optimize_no_particles_six_steps (rng : nat -> Draw) :
  exists w',
    MCMC_optimize (no_particles 0) 10 None 1e-6 5 (PyFloat 0.5) true rng
    = Ok (w', repeat (Scalar 0) 6).
Proof.
  unfold MCMC_optimize.
  assert (Hcov : 0 < cutoff (info (no_particles 0)) / 24).
  { cbn [cutoff info no_particles system systemInfo unit_info cutoff_radius]. lra. }
  change (Z.to_nat 10) with 10%nat.
  do 5 (rewrite optimize_loop_no_particles_go; [| exact Hcov | reflexivity]).
  rewrite optimize_loop_no_particles_stop; [| exact Hcov |].
  - cbn [bind]. rewrite state_no_particles. cbn [bind app repeat]. eexists. reflexivity.
  - apply (no_progress_iff (repeat (Scalar 0) 5)).
    apply (plateau_constant _ (Scalar 0)); [lra | repeat constructor | cbn; lia].
Qed.

(** The hypothesis of [MCMC_optimize_stops_on_plateau] holds for that run, and
    its conclusion reads: six steps, not five. *)
Lemma MCMC_optimize_stops_on_plateau_witness :
  exists w',
    MCMC_optimize (no_particles 0) 10 None 1e-6 5 (PyFloat 0.5) true
                  (fun _ => move_none)
    = Ok (w', repeat (Scalar 0) 6)
    /\ (length (repeat (Scalar 0) 6) <= Z.to_nat 10)%nat
    /\ ((length (repeat (Scalar 0) 6) < Z.to_nat 10)%nat ->
        plateau (repeat (Scalar 0) 6) 5 1e-6)
    /\ (forall j, (0 < j < length (repeat (Scalar 0) 6))%nat ->
        ~ plateau (firstn j (repeat (Scalar 0) 6)) 5 1e-6)
    /\ (forall e, (0 <= 5)%Z -> 0 < 1e-6 -> Forall (eq e) (repeat (Scalar 0) 6) ->
        length (repeat (Scalar 0) 6) = Nat.min (Z.to_nat 10) (Z.to_nat 5 + 1)).
Proof.
  destruct (optimize_no_particles_six_steps (fun _ => move_none)) as [w' H].
  exists w'. split; [exact H |].
  exact (MCMC_optimize_stops_on_plateau _ _ _ _ _ _ _ _ _ _ H).
Defined.

(** * Further properties of the code *)

(** ** The history of a [System] *)

(** After [update_state(s)], [state()] returns [s], [states()] is the former
    history followed by [s], and the static data and the arrays are the
    same. *)
Theorem update_state_then_state (w : World) (s : SystemState) :
  state (update_state w s) = Ok s
  /\ states (update_state w s) = states w ++ [s]
  /\ info (update_state w s) = info w
  /\ arrays (update_state w s) = arrays w.
Proof.
  unfold state, states, info, update_state. cbn [system systemStates systemInfo arrays].
  rewrite rev_unit. repeat split.
Qed.

(** [state()] raises [IndexError] exactly on an empty history. *)
Theorem state_raises_iff_empty (w : World) :
  state w = Err IndexError <-> states w = [].
Proof.
  unfold state. split.
  - destruct (rev (states w)) as [| s l] eqn:Hr; [| discriminate].
    intros _. apply (f_equal (@rev _)) in Hr. rewrite rev_involutive in Hr. exact Hr.
  - intros ->. reflexivity.
Qed.

(** ** [MCMC.simulate] *)

(** [simulate] with no step to run returns the current state and leaves the
    system as it is; with one step or more it raises [AttributeError] in the
    first [Simulator.act], whatever the temperature. *)
Theorem MCMC_simulate_behaviour (w : World) (steps : Z) (temperature : R)
    (rng : nat -> Draw) :
  MCMC_simulate w steps temperature rng
  = if (steps <=? 0)%Z then (st <- state w ;; Ok (st, w)) else Err AttributeError.
Proof.
  unfold MCMC_simulate. destruct (Z.leb_spec steps 0) as [H | H].
  - replace (Z.to_nat steps) with 0%nat by lia. reflexivity.
  - destruct (Z.to_nat steps) as [| k] eqn:Hk; [lia |]. reflexivity.
Qed.

(** ** The Metropolis test on float energies *)

(** On float energies the probability of line 112 lies in [0, 1], and it is
    1 whenever [beta * (energy_prop - energy_prev)] is not negative. *)
Theorem Simulator_p_acc_range (beta e_prev e_prop : R) :
  exists p,
    Simulator_p_acc beta (Scalar e_prev) (Scalar e_prop) = Ok p
    /\ 0 <= p <= 1
    /\ (0 <= beta * (e_prop - e_prev) -> p = 1).
Proof.
  rewrite Simulator_p_acc_scalar. eexists. split; [reflexivity |].
  set (x := beta * (e_prop - e_prev)).
  pose proof (exp_pos x) as Hpos.
  destruct (Rle_lt_dec 0 x) as [Hx | Hx].
  - assert (H1 : 1 <= exp x).
    { rewrite <- exp_0. destruct Hx as [Hx | <-];
        [left; apply exp_increasing, Hx | right; reflexivity]. }
    rewrite Rmin_left by exact H1. split; [lra | reflexivity].
  - assert (H1 : exp x < 1) by (rewrite <- exp_0; apply exp_increasing, Hx).
    rewrite Rmin_right by lra. split; [lra | intros; lra].
Qed.

(** The decision is [u <= p_acc]: a draw is accepted exactly when it does not
    exceed [min(1, exp(beta * (energy_prop - energy_prev)))]. *)
Theorem Simulator_accept_iff (beta e_prev e_prop u : R) :
  Simulator_accept beta (Scalar e_prev) (Scalar e_prop) u = Ok true
  <-> u <= Rmin 1 (exp (beta * (e_prop - e_prev))).
Proof.
  unfold Simulator_accept. rewrite Simulator_p_acc_scalar. cbn [bind]. unfold Rleb.
  destruct (Rle_dec u (Rmin 1 (exp (beta * (e_prop - e_prev))))); split; intros H;
    try reflexivity; try assumption; try discriminate; contradiction.
Qed.

Lemma nd_sub_is_array_r (a b : ndval) : is_array b -> is_array (nd_sub a b).
Proof. destruct b; [contradiction |]. intros _. destruct a; exact I. Qed.

Lemma nd_mul_scalar_is_array (x : R) (a : ndval) : is_array a -> is_array (nd_mul (Scalar x) a).
Proof. destruct a; [contradiction | intros _; exact I]. Qed.

Lemma nd_map_is_array (f : R -> R) (a : ndval) : is_array a -> is_array (nd_map f a).
Proof. destruct a; [contradiction | intros _; exact I]. Qed.

Lemma min_with_one_array (a : ndval) : is_array a -> min_with_one a = Err ValueError.
Proof. destruct a; [contradiction | reflexivity]. Qed.

(** For a system with at least one charge [Simulator._check] never returns a
    decision: the energy of the current state is an array of three elements
    and [np.min((1, ...))] over it raises (or an earlier statement does). *)
Theorem Simulator_check_never_decides (w : World) (s : SystemState) (temperature : R)
    (d : Draw) (b : bool) :
  particle_charges (info w) <> [] -> Simulator_check w s temperature d <> Ok b.
Proof.
  intros Hq. unfold Simulator_check.
  destruct (py_inv (k_B * temperature)) as [beta |]; [| discriminate]. cbn [bind].
  destruct (state w) as [st |]; [| discriminate]. cbn [bind].
  destruct (energy w st) as [prev |] eqn:Hp; [| discriminate]. cbn [bind].
  destruct (energy w s) as [prop |]; [| discriminate]. cbn [bind].
  unfold Simulator_accept, Simulator_p_acc.
  rewrite min_with_one_array; [discriminate |].
  apply nd_map_is_array, nd_mul_scalar_is_array, nd_sub_is_array_r.
  apply (energy_of_is_array _ _ _ Hq Hp).
Qed.

Lemma Simulator_check_never_decides_witness :
  particle_charges (info one_particle) <> []
  /\ Simulator_check one_particle {| positions := 0%nat |} 1 move_first <> Ok true.
Proof.
  split; [discriminate |].
  apply (Simulator_check_never_decides one_particle {| positions := 0%nat |} 1 move_first true).
  discriminate.
Defined.

(** ** [MCMC.optimize] and [Optimizer.act] *)

Lemma optimize_loop_appends (steps i : nat) (w w' : World) (es es' : list ndval)
    (cov tol : R) (window : Z) (a : pyarg) (rng : nat -> Draw) :
  optimize_loop steps i w es cov tol window a rng = Ok (w', es') ->
  exists new,
    states w' = states w ++ new
    /\ length es' = (length es + length new)%nat
    /\ info w' = info w
    /\ attr_systemStates (system w') = attr_systemStates (system w).
Proof.
  revert i w es. induction steps as [| steps IH]; intros i w es; cbn [optimize_loop].
  - intros H. injection H as <- <-. exists []. rewrite app_nil_r. cbn [length].
    repeat split. lia.
  - destruct (Optimizer_act w cov a (rng i)) as [[[s e] w1] |] eqn:Ha; [| discriminate].
    cbn [bind]. apply Optimizer_act_system in Ha.
    assert (Hu : states (update_state w1 s) = states w ++ [s]
                 /\ info (update_state w1 s) = info w
                 /\ attr_systemStates (system (update_state w1 s))
                    = attr_systemStates (system w)).
    { unfold states, info, update_state. cbn [system systemStates systemInfo
                                                attr_systemStates].
      rewrite Ha. repeat split. }
    destruct Hu as (Hs & Hi & Hat).
    destruct (no_progress (es ++ [e]) e window tol).
    + intros H. injection H as <- <-. exists [s]. rewrite length_app. cbn [length].
      repeat split; assumption || lia.
    + intros H. apply IH in H. destruct H as (new & Hs' & Hl & Hi' & Hat').
      exists (s :: new). rewrite Hs', Hs, <- app_assoc. cbn [app length].
      rewrite length_app in Hl. cbn [length] in Hl.
      repeat split; try congruence. lia.
Qed.

(** Whenever [optimize] returns, the history is the one before the call
    followed by one state per recorded energy, and the static data are the
    same; the flag [drop_intermediate_states] only decides whether the
    attribute [_systemStates] is set, to the list of the last state. *)
Theorem MCMC_optimize_appends_states (w w' : World) (max_steps : Z) (cov : option R)
    (tol : R) (window : Z) (a : pyarg) (drop : bool) (rng : nat -> Draw)
    (es : list ndval) :
  MCMC_optimize w max_steps cov tol window a drop rng = Ok (w', es) ->
  exists new,
    states w' = states w ++ new
    /\ length new = length es
    /\ info w' = info w
    /\ (if drop
        then exists s, state w' = Ok s /\ attr_systemStates (system w') = Some [s]
        else attr_systemStates (system w') = attr_systemStates (system w)).
Proof.
  unfold MCMC_optimize.
  destruct (optimize_loop _ 0 w [] _ tol window a rng) as [[w1 es1] |] eqn:Hl;
    [| discriminate].
  cbn [bind]. apply optimize_loop_appends in Hl.
  destruct Hl as (new & Hs & Hlen & Hi & Hat). cbn [length] in Hlen.
  destruct drop.
  - destruct (state w1) as [s |] eqn:Hst; [| discriminate]. cbn [bind].
    intros H. injection H as <- <-. exists new.
    split; [exact Hs |]. split; [lia |]. split; [exact Hi |].
    exists s. split; [exact Hst | reflexivity].
  - intros H. injection H as <- <-. exists new.
    split; [exact Hs |]. split; [lia |]. split; [exact Hi | exact Hat].
Qed.

(** For a system with at least one charge, [optimize] asked for one step or
    more never returns: the first [Optimizer.act] raises. *)
Theorem MCMC_optimize_never_returns_with_charges (w : World) (max_steps : Z)
    (cov : option R) (tol : R) (window : Z) (a : pyarg) (drop : bool)
    (rng : nat -> Draw) (r : World * list ndval) :
  particle_charges (info w) <> [] -> (0 < max_steps)%Z ->
  MCMC_optimize w max_steps cov tol window a drop rng <> Ok r.
Proof.
  intros Hq Hm. unfold MCMC_optimize.
  destruct (Z.to_nat max_steps) as [| k] eqn:Hk; [lia |]. cbn [optimize_loop].
  match goal with
  | |- context [Optimizer_act ?w0 ?c ?a0 ?d0] =>
      destruct (Optimizer_act w0 c a0 d0) as [x |] eqn:Ha
  end.
  - exfalso. exact (Optimizer_act_never_returns _ _ _ _ _ Hq Ha).
  - discriminate.
Qed.

Lemma MCMC_optimize_never_returns_with_charges_witness :
  particle_charges (info one_particle) <> [] /\ (0 < 1)%Z
  /\ MCMC_optimize one_particle 1 None 1e-6 250 (PyFloat 0.5) true (fun _ => move_first)
     <> Ok (one_particle, []).
Proof.
  split; [discriminate |]. split; [reflexivity |].
  apply MCMC_optimize_never_returns_with_charges; [discriminate | reflexivity].
Defined.

(** With a window that is zero or negative and a positive tolerance the loop
    of [optimize] leaves after its first step: [energies[-0:]] is the whole
    list, which then holds the newest energy alone, and [energies[k:]] for a
    [k > 0] is empty. *)
Theorem MCMC_optimize_nonpositive_window (w w' : World) (max_steps : Z) (cov : option R)
    (tol : R) (window : Z) (a : pyarg) (drop : bool) (rng : nat -> Draw)
    (es : list ndval) :
  (window <= 0)%Z -> 0 < tol ->
  MCMC_optimize w max_steps cov tol window a drop rng = Ok (w', es) ->
  (length es <= 1)%nat.
Proof.
  intros Hw Ht. unfold MCMC_optimize.
  destruct (optimize_loop _ 0 w [] _ tol window a rng) as [[w1 es1] |] eqn:Hl;
    [| discriminate].
  cbn [bind]. intros H.
  assert (Hes : es1 = es).
  { destruct drop; [destruct (state w1); [| discriminate] |];
      cbn [bind] in H; injection H as _ <-; reflexivity. }
  subst es1. clear H.
  apply optimize_loop_stops in Hl. destruct Hl as (new & Hnew & _ & _ & Hgo).
  cbn [app] in Hnew, Hgo. subst new.
  destruct es as [| e [| e' t]]; cbn [length]; try lia.
  exfalso. apply (Hgo 1%nat); [cbn [length]; lia |].
  cbn [firstn]. split; [cbn [length]; lia |].
  cbn [last]. unfold slice_from. cbn [length].
  destruct (Z.ltb_spec (- window) 0) as [Hlt | Hge]; [lia |].
  destruct (Z.to_nat (- window)) as [| k]; cbn [skipn].
  - constructor; [apply close_refl, Ht | constructor].
  - rewrite skipn_nil. constructor.
Qed.

Lemma MCMC_optimize_appends_states_witness :
  exists w',
    MCMC_optimize (no_particles 0) 10 None 1e-6 5 (PyFloat 0.5) true
                  (fun _ => move_none)
    = Ok (w', repeat (Scalar 0) 6)
    /\ exists new,
         states w' = states (no_particles 0) ++ new
         /\ length new = length (repeat (Scalar 0) 6)
         /\ info w' = info (no_particles 0)
         /\ exists s, state w' = Ok s /\ attr_systemStates (system w') = Some [s].
Proof.
  destruct (optimize_no_particles_six_steps (fun _ => move_none)) as [w' H].
  exists w'. split; [exact H |].
  exact (MCMC_optimize_appends_states _ _ _ _ _ _ _ _ _ _ H).
Defined.

(** With a window of 0 the run on the system without particles takes one
    step. *)
Lemma optimize_no_particles_window_zero (rng : nat -> Draw) :
  exists w',
    MCMC_optimize (no_particles 0) 10 None 1e-6 0 (PyFloat 0.5) false rng
    = Ok (w', [Scalar 0]).
Proof.
  unfold MCMC_optimize.
  assert (Hcov : 0 < cutoff (info (no_particles 0)) / 24).
  { cbn [cutoff info no_particles system systemInfo unit_info cutoff_radius]. lra. }
  change (Z.to_nat 10) with 10%nat.
  rewrite optimize_loop_no_particles_stop; [| exact Hcov |].
  - cbn [bind app]. eexists. reflexivity.
  - apply (no_progress_iff []).
    apply (plateau_constant _ (Scalar 0)); [lra | repeat constructor | cbn; lia].
Qed.

Lemma MCMC_optimize_nonpositive_window_witness :
  (0 <= 0)%Z /\ 0 < 1e-6
  /\ exists w',
       MCMC_optimize (no_particles 0) 10 None 1e-6 0 (PyFloat 0.5) false
                     (fun _ => move_none)
       = Ok (w', [Scalar 0])
       /\ (length [Scalar 0] <= 1)%nat.
Proof.
  split; [apply Z.le_refl |]. split; [lra |].
  destruct (optimize_no_particles_window_zero (fun _ => move_none)) as [w' H].
  exists w'. split; [exact H |].
  refine (MCMC_optimize_nonpositive_window _ _ _ _ _ _ _ _ _ _ _ _ H);
    [apply Z.le_refl | lra].
Defined.



(** [Optimizer.act] returns only for a system without charges. *)
Theorem Optimizer_act_returns_only_without_charges (w : World) (cov : R) (a : pyarg)
    (d : Draw) (r : SystemState * ndval * World) :
  Optimizer_act w cov a d = Ok r -> particle_charges (info w) = [].
Proof.
  intros H. destruct (particle_charges (info w)) as [| q l] eqn:Hq; [reflexivity |].
  exfalso. apply (Optimizer_act_never_returns w cov a d r); [| exact H].
  rewrite Hq. discriminate.
Qed.



Lemma Optimizer_act_returns_only_without_charges_witness :
  exists w',
    Optimizer_act (no_particles 0) 1 (PyFloat 0.5) move_none
    = Ok ({| positions := 0%nat |}, Scalar 0, w')
    /\ particle_charges (info (no_particles 0)) = [].
Proof.
  exists (no_particles 0).
  assert (H : Optimizer_act (no_particles 0) 1 (PyFloat 0.5) move_none
              = Ok ({| positions := 0%nat |}, Scalar 0, no_particles 0))
    by (apply Optimizer_act_no_particles; lra).
  split; [exact H |].
  exact (Optimizer_act_returns_only_without_charges _ _ _ _ _ H).
Defined.

(** ** What a proposal writes *)

Lemma row_set_row_eq (a : ndarray) (i : nat) (v : vec3) :
  (i < length a)%nat -> row (set_row a i v) i = v.
Proof.
  unfold row. revert i. induction a as [| h t IH]; intros [| j] H; cbn [length] in H;
    try lia; cbn [set_row nth]; [reflexivity | apply IH; lia].
Qed.

Lemma row_set_row_neq (a : ndarray) (i j : nat) (v : vec3) :
  i <> j -> row (set_row a i v) j = row a j.
Proof.
  unfold row. revert i j. induction a as [| h t IH]; intros [| i] [| j] H;
    cbn [set_row nth]; try reflexivity; try contradiction. apply IH. congruence.
Qed.

Lemma scatter_row_not_in (idx : list nat) (a rows : ndarray) (j : nat) :
  ~ In j idx -> row (scatter a idx rows) j = row a j.
Proof.
  revert a rows. induction idx as [| i idx IH]; intros a [| r rows] H; cbn [scatter];
    try reflexivity.
  rewrite IH; [| intros Hin; apply H; right; exact Hin].
  apply row_set_row_neq. intros ->. apply H. left. reflexivity.
Qed.

(** The row written last at an index is the one that stands. *)
Lemma scatter_row_last (idx : list nat) (a rows : ndarray) (m j : nat) (r : vec3) :
  nth_error idx m = Some j -> nth_error rows m = Some r ->
  ~ In j (skipn (S m) idx) -> (j < length a)%nat ->
  row (scatter a idx rows) j = r.
Proof.
  revert a rows m. induction idx as [| i idx IH]; intros a rows m Hi Hr Hlater Hj.
  - destruct m; discriminate.
  - destruct rows as [| r0 rows]; [destruct m; discriminate |].
    destruct m as [| m]; cbn [nth_error skipn scatter] in *.
    + injection Hi as ->. injection Hr as ->.
      rewrite scatter_row_not_in by exact Hlater. apply row_set_row_eq, Hj.
    + apply (IH _ _ m); try assumption. rewrite set_row_length. exact Hj.
Qed.

Lemma moved_nth (old : ndarray) (normal_ : nat -> vec3) (idx : list nat) (s k m j : nat) :
  nth_error idx m = Some j -> (m < k)%nat ->
  nth_error (map (fun pr => vadd (fst pr) (snd pr))
                 (combine (gather old idx) (map normal_ (seq s k)))) m
  = Some (vadd (row old j) (normal_ (s + m)%nat)).
Proof.
  revert s k m. induction idx as [| i idx IH]; intros s k m Hi Hm.
  - destruct m; discriminate.
  - destruct k as [| k]; [lia |]. cbn [gather map seq combine].
    destruct m as [| m]; cbn [nth_error] in *.
    + injection Hi as ->. cbn [fst snd]. rewrite Nat.add_0_r. reflexivity.
    + fold (gather old idx). rewrite (IH (S s) k m Hi) by lia.
      do 3 f_equal. lia.
Qed.

Lemma load_store_eq (h : heap) (l : loc) (a : ndarray) :
  (l < length h)%nat -> load (store h l a) l = a.
Proof.
  unfold load. revert l. induction h as [| x t IH]; intros [| k] H; cbn [length] in H;
    try lia; cbn [store nth]; [reflexivity | apply IH; lia].
Qed.

Lemma load_store_neq (h : heap) (l l' : loc) (a : ndarray) :
  l <> l' -> load (store h l a) l' = load h l'.
Proof.
  unfold load. revert l l'. induction h as [| x t IH]; intros [| k] [| k'] H;
    cbn [store nth]; try reflexivity; try contradiction. apply IH. congruence.
Qed.

(** For a sample [np.random.choice] can return, [Optimizer._propose] writes
    into the current array exactly the selected rows: the row of the [m]-th
    selected particle becomes its old value plus the [m]-th Gaussian draw,
    every other row and every other array keep their values, and the number
    of rows is the same. *)
Theorem Optimizer_propose_moves_selected (w w' : World) (cov : R) (a : pyarg) (d : Draw)
    (st s : SystemState) (e : ndval) (k : Z) :
  state w = Ok st ->
  (positions st < length (arrays w))%nat ->
  propose_size (Z.of_nat (length (load (arrays w) (positions st)))) a = Ok k ->
  choice_ok (Z.of_nat (length (load (arrays w) (positions st)))) k false (choice d) ->
  Optimizer_propose w cov a d = Ok (s, e, w') ->
  length (load (arrays w') (positions st)) = length (load (arrays w) (positions st))
  /\ (forall j, ~ In j (choice d) ->
        row (load (arrays w') (positions st)) j = row (load (arrays w) (positions st)) j)
  /\ (forall m j, nth_error (choice d) m = Some j ->
        row (load (arrays w') (positions st)) j
        = vadd (row (load (arrays w) (positions st)) j) (normal d m))
  /\ (forall l, l <> positions st -> load (arrays w') l = load (arrays w) l).
Proof.
  intros Hst Hl Hk (Hlen & Hall & Hnd) H. specialize (Hnd eq_refl).
  unfold Optimizer_propose in H. rewrite Hst in H. cbn [bind] in H.
  rewrite Hk in H. cbn [bind] in H.
  destruct (random_choice _ k false (choice d)) as [particles |] eqn:Hc; [| discriminate].
  assert (Hp : particles = choice d).
  { unfold random_choice in Hc.
    repeat match type of Hc with
           | (if ?c then _ else _) = _ => destruct c; [discriminate |]
           end.
    injection Hc as <-. reflexivity. }
  subst particles. cbn [bind] in H.
  destruct (multivariate_normal cov); [| discriminate]. cbn [bind] in H.
  match type of H with
  | context [energy ?w1 ?s1] => destruct (energy w1 s1) as [e1 |]
  end; [| discriminate].
  cbn [bind] in H. injection H as <- <- <-. cbn [arrays].
  rewrite load_store_eq by exact Hl.
  split; [apply scatter_length |]. split; [| split].
  - intros j Hj. apply scatter_row_not_in, Hj.
  - intros m j Hm.
    assert (Hmk : (m < Z.to_nat k)%nat).
    { assert (Hb : (m < length (choice d))%nat)
        by (apply nth_error_Some; rewrite Hm; discriminate).
      lia. }
    apply (scatter_row_last _ _ _ m).
    + exact Hm.
    + unfold rvs. rewrite (moved_nth _ _ _ 0 _ m j Hm Hmk). reflexivity.
    + intros Hin.
      rewrite <- (firstn_skipn (S m) (choice d)) in Hnd.
      assert (Hfirst : In j (firstn (S m) (choice d))).
      { apply (nth_error_In _ m). rewrite nth_error_firstn.
        destruct (Nat.ltb_spec m (S m)); [exact Hm | lia]. }
      revert Hnd Hfirst Hin. generalize (firstn (S m) (choice d)) (skipn (S m) (choice d)).
      intros l1 l2 Hnd H1 H2.
      induction l1 as [| x l1 IH]; [contradiction |].
      cbn [app] in Hnd. apply NoDup_cons_iff in Hnd as [Hx Hnd].
      destruct H1 as [-> | H1]; [apply Hx, in_or_app; right; exact H2 | exact (IH Hnd H1)].
    + rewrite Forall_forall in Hall. specialize (Hall j (nth_error_In _ _ Hm)). lia.
  - intros l Hne. apply load_store_neq. congruence.
Qed.

Lemma Optimizer_propose_moves_selected_witness :
  exists e w',
    state one_particle = Ok {| positions := 0%nat |}
    /\ propose_size 1 (PyInt 1) = Ok 1%Z
    /\ choice_ok 1 1 false (choice move_first)
    /\ Optimizer_propose one_particle 1 (PyInt 1) move_first
       = Ok ({| positions := 0%nat |}, e, w')
    /\ row (load (arrays w') 0%nat) 0 = vadd (0, 0, 0) (1, 0, 0).
Proof.
  destruct propose_one_particle as (e & w' & Hp & _).
  assert (Hc : choice_ok 1 1 false (choice move_first)).
  { split; [reflexivity |]. split; [repeat constructor |].
    intros _. repeat constructor. intros []. }
  exists e, w'. split; [reflexivity |]. split; [reflexivity |]. split; [exact Hc |].
  split; [exact Hp |].
  destruct (Optimizer_propose_moves_selected one_particle w' 1 (PyInt 1) move_first
              {| positions := 0%nat |} {| positions := 0%nat |} e 1%Z
              eq_refl (le_n 1) eq_refl Hc Hp) as (_ & _ & Hmoved & _).
  exact (Hmoved 0%nat 0%nat eq_refl).
Defined.

(** Whenever [Optimizer._propose] returns, the proposal state is the current
    state's array under a second name: it holds the same address, the
    history is the same, and the energy returned is that of the current
    state as it reads after the call. *)
Theorem Optimizer_propose_aliases_current_state (w w' : World) (cov : R) (a : pyarg)
    (d : Draw) (s : SystemState) (e : ndval) :
  Optimizer_propose w cov a d = Ok (s, e, w') ->
  state w = Ok s /\ state w' = Ok s /\ states w' = states w /\ energy w' s = Ok e.
Proof.
  intros H.
  destruct (Optimizer_propose_shares_array _ _ _ _ _ _ _ H) as (H1 & H2 & H3).
  pose proof (Optimizer_propose_system _ _ _ _ _ _ _ H) as Hs.
  repeat split; try assumption. unfold states. rewrite Hs. reflexivity.
Qed.

Lemma Optimizer_propose_aliases_current_state_witness :
  exists e w',
    Optimizer_propose one_particle 1 (PyInt 1) move_first
    = Ok ({| positions := 0%nat |}, e, w')
    /\ state one_particle = Ok {| positions := 0%nat |}
    /\ state w' = Ok {| positions := 0%nat |}
    /\ states w' = states one_particle
    /\ energy w' {| positions := 0%nat |} = Ok e.
Proof.
  destruct propose_one_particle as (e & w' & Hp & _).
  exists e, w'. split; [exact Hp |].
  exact (Optimizer_propose_aliases_current_state _ _ _ _ _ _ _ Hp).
Defined.

(** [Simulator._metropolis] works on a copy.  The proposal state holds a new
    address; the system and every array that existed keep their contents;
    the new array has as many rows as the current one, its unselected rows
    are the current ones, and a selected row is the current row plus the
    Gaussian draw of its last occurrence in the sample. *)
Theorem Simulator_metropolis_writes_copy (w w' : World) (idx : list nat) (cov : R)
    (d : Draw) (st s : SystemState) :
  state w = Ok st ->
  Forall (fun i => (i < length (load (arrays w) (positions st)))%nat) idx ->
  Simulator_metropolis w idx cov d = Ok (s, w') ->
  positions s = length (arrays w)
  /\ system w' = system w
  /\ (forall l, (l < length (arrays w))%nat -> load (arrays w') l = load (arrays w) l)
  /\ length (load (arrays w') (positions s)) = length (load (arrays w) (positions st))
  /\ (forall j, ~ In j idx ->
        row (load (arrays w') (positions s)) j = row (load (arrays w) (positions st)) j)
  /\ (forall m j, nth_error idx m = Some j -> ~ In j (skipn (S m) idx) ->
        row (load (arrays w') (positions s)) j
        = vadd (row (load (arrays w) (positions st)) j) (normal d m)).
Proof.
  intros Hst Hall H. unfold Simulator_metropolis in H. rewrite Hst in H. cbn [bind] in H.
  destruct idx as [| i0 idx0] eqn:Hidx; [discriminate |]. rewrite <- Hidx in *.
  destruct (multivariate_normal cov); [| discriminate]. cbn [bind alloc] in H.
  injection H as <- <-. cbn [positions arrays system].
  assert (Hnew : forall x, load (arrays w ++ [x]) (length (arrays w)) = x).
  { intros x. unfold load. apply nth_middle. }
  rewrite Hnew. split; [reflexivity |]. split; [reflexivity |]. split; [| split; [| split]].
  - intros l Hl. unfold load. apply app_nth1. exact Hl.
  - apply scatter_length.
  - intros j Hj. apply scatter_row_not_in, Hj.
  - intros m j Hm Hlater.
    assert (Hb : (m < length idx)%nat)
      by (apply nth_error_Some; rewrite Hm; discriminate).
    apply (scatter_row_last _ _ _ m).
    + exact Hm.
    + unfold rvs. rewrite (moved_nth _ _ _ 0 _ m j Hm Hb). reflexivity.
    + exact Hlater.
    + rewrite Forall_forall in Hall. apply Hall. apply (nth_error_In _ _ Hm).
Qed.

Lemma Simulator_metropolis_writes_copy_witness :
  state one_particle = Ok {| positions := 0%nat |}
  /\ Forall (fun i => (i < 1)%nat) [0%nat]
  /\ Simulator_metropolis one_particle [0%nat] 1 move_first
     = Ok ({| positions := 1%nat |},
           {| arrays := [ [ (0, 0, 0) ]; [ vadd (0, 0, 0) (1, 0, 0) ] ];
              system := system one_particle |})
  /\ load [ [ (0, 0, 0) ]; [ vadd (0, 0, 0) (1, 0, 0) ] ] 0%nat = [ (0, 0, 0) ].
Proof.
  assert (Hall : Forall (fun i => (i < 1)%nat) [0%nat]) by (repeat constructor).
  assert (Hm : Simulator_metropolis one_particle [0%nat] 1 move_first
               = Ok ({| positions := 1%nat |},
                     {| arrays := [ [ (0, 0, 0) ]; [ vadd (0, 0, 0) (1, 0, 0) ] ];
                        system := system one_particle |})).
  { unfold Simulator_metropolis.
    cbn [state states one_particle system systemStates rev app bind].
    rewrite multivariate_normal_ok by lra. reflexivity. }
  split; [reflexivity |]. split; [exact Hall |]. split; [exact Hm |].
  destruct (Simulator_metropolis_writes_copy one_particle _ [0%nat] 1 move_first
              {| positions := 0%nat |} _ eq_refl Hall Hm) as (_ & _ & Hkeep & _).
  exact (Hkeep 0%nat (Nat.lt_0_succ 0)).
Defined.

(** ** When and what [energy] returns *)


(** What [energy] returns is the float 0.0 for a system without charges and
    an array of shape (3,) for every other system, never a float. *)
Theorem energy_of_shape (i : SystemInfo) (pos : ndarray) (v : ndval) :
  energy_of i pos = Ok v ->
  (particle_charges i = [] /\ v = Scalar 0)
  \/ (particle_charges i <> [] /\ is_array v).
Proof.
  intros H. destruct (particle_charges i) as [| q l] eqn:Hq.
  - left. split; [reflexivity | apply (energy_of_no_charge i pos v Hq H)].
  - right. split; [discriminate |].
    apply (energy_of_is_array i pos v); [rewrite Hq; discriminate | exact H].
Qed.

Lemma energy_of_shape_witness :
  exists v,
    energy_of (unit_info [1]) [ (0, 0, 0) ] = Ok v
    /\ ((particle_charges (unit_info [1]) = [] /\ v = Scalar 0)
        \/ (particle_charges (unit_info [1]) <> [] /\ is_array v)).
Proof.
  destruct (energy_of (unit_info [1]) [ (0, 0, 0) ]) as [v |] eqn:H.
  - exists v. split; [reflexivity |]. exact (energy_of_shape _ _ _ H).
  - exfalso. rewrite energy_of_ok in H;
      cbn [unit_info particle_charges epsilon0 char_length sigma length];
      [discriminate | apply le_n | apply R1_neq_R0 | apply R1_neq_R0 | apply R1_neq_R0].
Defined.

Lemma fold_left_ext_in {A B : Type} (f g : A -> B -> A) (l : list B) (a : A) :
  (forall x acc, In x l -> f acc x = g acc x) -> fold_left f l a = fold_left g l a.
Proof.
  revert a. induction l as [| x l IH]; intros a H; cbn [fold_left]; [reflexivity |].
  rewrite H by (left; reflexivity). apply IH. intros y acc Hy. apply H. right. exact Hy.
Qed.

Lemma vsub_translate (p q t : vec3) : vsub (vadd p t) (vadd q t) = vsub p q.
Proof.
  destruct p as [[a b] c], q as [[x y] z], t as [[u v] w]. unfold vsub, vadd, vzip.
  f_equal; [f_equal |]; lra.
Qed.

Lemma row_map (f : vec3 -> vec3) (pos : ndarray) (a : nat) :
  (a < length pos)%nat -> row (map f pos) a = f (row pos a).
Proof.
  intros H. unfold row. rewrite (nth_indep _ _ (f (0, 0, 0))) by (rewrite length_map; exact H).
  apply map_nth.
Qed.

(** The energy depends on the positions through their differences only:
    moving every particle by the same vector changes nothing (in exact
    arithmetic; the rounding of float64 differences is not modelled). *)
Theorem energy_of_translation (i : SystemInfo) (pos : ndarray) (t : vec3) :
  energy_of i (map (fun p => vadd p t) pos) = energy_of i pos.
Proof.
  unfold energy_of. rewrite length_map.
  destruct (Nat.ltb_spec (length pos) (length (particle_charges i))) as [Hlt | Hle];
    [reflexivity |].
  assert (Hs : shortsum i (map (fun p => vadd p t) pos) = shortsum i pos).
  { unfold shortsum. apply fold_left_ext_in. intros a acc Ha.
    apply fold_left_ext_in. intros b acc' Hb.
    apply in_seq in Ha. apply in_seq in Hb.
    rewrite !row_map by lia. unfold pair_term. rewrite vsub_translate. reflexivity. }
  rewrite Hs. reflexivity.
Qed.

(** ** The energy does not depend on the numbering of the particles *)

Lemma vec3_eq (a b c a' b' c' : R) : a = a' -> b = b' -> c = c' -> (a, b, c) = (a', b', c').
Proof. intros -> -> ->. reflexivity. Qed.

Lemma nd_add_swap (a x y : ndval) : nd_add (nd_add a x) y = nd_add (nd_add a y) x.
Proof.
  destruct a as [a | [[a1 a2] a3]], x as [x | [[x1 x2] x3]], y as [y | [[y1 y2] y3]];
    cbn [nd_add nd_zip vmap vzip]; f_equal; try apply vec3_eq; lra.
Qed.

Lemma nd_sum_permutation (l l' : list ndval) (a : ndval) :
  Permutation l l' -> fold_left nd_add l a = fold_left nd_add l' a.
Proof.
  intros H. revert a. induction H as [| x l l' _ IH | x y l | l l' l'' _ IH1 _ IH2];
    intros a; cbn [fold_left].
  - reflexivity.
  - apply IH.
  - rewrite nd_add_swap. reflexivity.
  - rewrite IH1. apply IH2.
Qed.

Lemma fold_left_add_map {A : Type} (h : A -> ndval) (l : list A) (acc : ndval) :
  fold_left (fun acc' b => nd_add acc' (h b)) l acc = fold_left nd_add (map h l) acc.
Proof.
  revert acc. induction l as [| x l IH]; intros acc; cbn [fold_left map];
    [reflexivity | apply IH].
Qed.

Lemma fold_left_add_flat_map {A : Type} (F : A -> list ndval) (l : list A) (acc : ndval) :
  fold_left (fun acc' a => fold_left nd_add (F a) acc') l acc
  = fold_left nd_add (flat_map F l) acc.
Proof.
  revert acc. induction l as [| x l IH]; intros acc; cbn [fold_left flat_map];
    [reflexivity |]. rewrite fold_left_app. apply IH.
Qed.

Lemma flat_map_of_map {A B C : Type} (g : A -> B) (F : B -> list C) (l : list A) :
  flat_map F (map g l) = flat_map (fun a => F (g a)) l.
Proof.
  induction l as [| x l IH]; cbn [map flat_map]; [reflexivity | now rewrite IH].
Qed.

Lemma index_combine (q : list R) (pos : ndarray) :
  length q = length pos ->
  map (fun a => (nth a q 0, row pos a)) (seq 0 (length q)) = combine q pos.
Proof.
  revert pos. induction q as [| x q IH]; intros [| p pos] H; cbn [length] in H;
    try discriminate; [reflexivity |].
  cbn [length seq map combine nth row]. f_equal.
  rewrite <- seq_shift, map_map. rewrite <- (IH pos) by lia.
  apply map_ext. intros a. reflexivity.
Qed.

(** The terms of the double loop, for the list of (charge, position) pairs. *)
Lemma shortsum_as_sum (i : SystemInfo) (pos : ndarray) :
  length (particle_charges i) = length pos ->
  shortsum i pos
  = fold_left nd_add
      (flat_map (fun P => map (fun Q => pair_term i (fst P) (fst Q) (snd P) (snd Q))
                              (combine (particle_charges i) pos))
                (combine (particle_charges i) pos))
      (Scalar 0).
Proof.
  intros H. unfold shortsum.
  rewrite <- (index_combine _ _ H).
  set (g := fun a => (nth a (particle_charges i) 0, row pos a)).
  set (idx := seq 0 (length (particle_charges i))).
  rewrite flat_map_of_map.
  rewrite <- fold_left_add_flat_map.
  apply fold_left_ext_in. intros a acc _.
  rewrite map_map. rewrite <- fold_left_add_map. reflexivity.
Qed.

Lemma flat_map_pointwise_permutation {A B : Type} (F G : A -> list B) (l : list A) :
  (forall x, Permutation (F x) (G x)) -> Permutation (flat_map F l) (flat_map G l).
Proof.
  intros H. induction l as [| x l IH]; cbn [flat_map]; [constructor |].
  apply Permutation_app; [apply H | exact IH].
Qed.

Lemma sum_squares_permutation (q q' : list R) :
  Permutation q q' -> sum_squares q = sum_squares q'.
Proof.
  intros H. induction H as [| x l l' _ IH | x y l | l l' l'' _ IH1 _ IH2].
  - reflexivity.
  - change (x * x + sum_squares l = x * x + sum_squares l'). rewrite IH. reflexivity.
  - change (y * y + (x * x + sum_squares l) = x * x + (y * y + sum_squares l)). lra.
  - rewrite IH1. exact IH2.
Qed.

Lemma map_fst_combine (q : list R) (pos : ndarray) :
  length q = length pos -> map fst (combine q pos) = q.
Proof.
  revert pos. induction q as [| x q IH]; intros [| p pos] H; cbn [length] in H;
    try discriminate; [reflexivity |]. cbn [combine map fst]. f_equal. apply IH. lia.
Qed.

(** Listing the particles in another order, charges and positions alike,
    leaves the energy unchanged. *)
Theorem energy_of_permutation (i : SystemInfo) (pos pos' : ndarray) (q' : list R) :
  length (particle_charges i) = length pos ->
  length q' = length pos' ->
  Permutation (combine (particle_charges i) pos) (combine q' pos') ->
  energy_of (with_charges i q') pos' = energy_of i pos.
Proof.
  intros Hl Hl' Hp.
  assert (Hq : Permutation (particle_charges i) q').
  { rewrite <- (map_fst_combine _ _ Hl), <- (map_fst_combine _ _ Hl').
    apply Permutation_map, Hp. }
  assert (Hs : shortsum (with_charges i q') pos' = shortsum i pos).
  { rewrite (shortsum_as_sum i pos Hl).
    rewrite (shortsum_as_sum (with_charges i q') pos') by exact Hl'.
    cbn [with_charges particle_charges].
    apply nd_sum_permutation. symmetry.
    etransitivity.
    - apply Permutation_flat_map. exact Hp.
    - apply flat_map_pointwise_permutation. intros P.
      apply (Permutation_map (fun Q => pair_term i (fst P) (fst Q) (snd P) (snd Q))).
      exact Hp. }
  unfold energy_of. rewrite Hs.
  cbn [with_charges particle_charges epsilon0 sigma].
  assert (Hv : volume (with_charges i q') = volume i) by reflexivity. rewrite Hv.
  rewrite (sum_squares_permutation _ _ Hq).
  rewrite <- Hl', <- Hl. rewrite !Nat.ltb_irrefl. reflexivity.
Qed.

Lemma energy_of_permutation_witness :
  length (particle_charges (unit_info two_charges)) = length two_positions
  /\ length two_charges_swapped = length two_positions_swapped
  /\ energy_of (with_charges (unit_info two_charges) two_charges_swapped)
               two_positions_swapped
     = energy_of (unit_info two_charges) two_positions.
Proof.
  split; [reflexivity |]. split; [reflexivity |].
  apply energy_of_permutation; [reflexivity | reflexivity |].
  apply perm_swap.
Defined.

(** ** Subset sizes and the window *)

(** Lines 94-95 of [Simulator.act] never raise: the size ceil(0.1 * N) lies
    between 0 and N and is 0 only for N = 0, so [np.random.choice] accepts it
    and the sample it draws is what is selected. *)
Theorem Simulator_indices_never_raises (n : nat) (d : Draw) :
  Simulator_indices n d = Ok (choice d)
  /\ (0 <= Zceil (0.1 * INR n) <= Z.of_nat n)%Z
  /\ (Zceil (0.1 * INR n) = 0%Z <-> n = 0%nat).
Proof.
  pose proof (Zceil_bound (0.1 * INR n)) as [Hlo Hhi].
  pose proof (pos_INR n) as Hn.
  set (c := Zceil (0.1 * INR n)) in *.
  assert (Hc0 : (0 <= c)%Z).
  { apply le_IZR. lra. }
  assert (Hcn : (c <= Z.of_nat n)%Z).
  { destruct n as [| m].
    - cbn [INR] in Hlo. assert (H : IZR c < 1) by lra. apply lt_IZR in H. lia.
    - assert (H1 : 1 <= INR (S m)) by (rewrite S_INR; pose proof (pos_INR m); lra).
      assert (H : IZR c < IZR (Z.of_nat (S m)) + 1).
      { rewrite <- INR_IZR_INZ. lra. }
      rewrite <- plus_IZR in H. apply lt_IZR in H. lia. }
  assert (Hz : c = 0%Z <-> n = 0%nat).
  { split.
    - intros H0. rewrite H0 in Hhi. destruct n as [| m]; [reflexivity |].
      rewrite S_INR in Hhi. pose proof (pos_INR m). lra.
    - intros ->. cbn [INR] in Hlo. assert (H : IZR c < 1) by lra. apply lt_IZR in H. lia. }
  split; [| split; [split; assumption | exact Hz]].
  unfold Simulator_indices, random_choice. fold c.
  destruct (Z.ltb_spec c 0); [lia |].
  destruct (Z.leb_spec (Z.of_nat n) 0) as [Hle | Hgt]; cbn [andb negb]; [| reflexivity].
  destruct (Z.eqb_spec c 0) as [_ | Hne]; [reflexivity |].
  exfalso. apply Hne, Hz. lia.
Qed.

(** For a window between 1 and the number of energies less one, the test of
    the loop reads exactly the last [window] energies: it holds iff each of
    them is within the tolerance of the newest. *)
Theorem no_progress_trailing_window (es : list ndval) (e : ndval) (window : nat)
    (tol : R) :
  (0 < window < length es)%nat ->
  (no_progress es e (Z.of_nat window) tol = true
   <-> Forall (close tol e) (skipn (length es - window) es))
  /\ length (skipn (length es - window) es) = window.
Proof.
  intros H.
  destruct (slice_from_trailing window es ltac:(lia)) as [Hs Hl].
  rewrite <- Hs. split; [| exact Hl].
  unfold no_progress. rewrite andb_true_iff, Z.ltb_lt, all_close_iff. split.
  - intros [_ Hc]. exact Hc.
  - intros Hc. split; [lia | exact Hc].
Qed.

Lemma no_progress_trailing_window_witness :
  (0 < 5 < length (repeat (Scalar 0) 6))%nat
  /\ (no_progress (repeat (Scalar 0) 6) (Scalar 0) (Z.of_nat 5) 1e-6 = true
      <-> Forall (close 1e-6 (Scalar 0)) (skipn (length (repeat (Scalar 0) 6) - 5)
                                                (repeat (Scalar 0) 6)))
  /\ length (skipn (length (repeat (Scalar 0) 6) - 5) (repeat (Scalar 0) 6)) = 5%nat.
Proof.
  assert (H : (0 < 5 < length (repeat (Scalar 0) 6))%nat).
  { cbn [repeat length]. split; [apply Nat.lt_0_succ | apply le_n]. }
  split; [exact H |].
  exact (no_progress_trailing_window (repeat (Scalar 0) 6) (Scalar 0) 5 1e-6 H).
Defined.

(** ** The energy is quadratic in the charges *)

Lemma nd_mul_scalar_add (k : R) (a x : ndval) :
  nd_mul (Scalar k) (nd_add a x) = nd_add (nd_mul (Scalar k) a) (nd_mul (Scalar k) x).
Proof.
  destruct a as [a | [[a1 a2] a3]], x as [x | [[x1 x2] x3]];
    cbn [nd_mul nd_add nd_zip vmap vzip]; f_equal; try apply vec3_eq; lra.
Qed.

Lemma nd_sum_scaled (k : R) (l : list ndval) (acc : ndval) :
  fold_left nd_add (map (nd_mul (Scalar k)) l) (nd_mul (Scalar k) acc)
  = nd_mul (Scalar k) (fold_left nd_add l acc).
Proof.
  revert acc. induction l as [| x l IH]; intros acc; cbn [map fold_left];
    [reflexivity |]. rewrite <- nd_mul_scalar_add. apply IH.
Qed.

Lemma pair_term_scaled (i : SystemInfo) (c qa qb : R) (p q : vec3) :
  pair_term i (c * qa) (c * qb) p q = nd_mul (Scalar (c * c)) (pair_term i qa qb p q).
Proof.
  unfold pair_term. destruct p as [[a1 a2] a3], q as [[x1 x2] x3].
  cbn [vsub vzip nd_add nd_div nd_mul nd_zip vmap]. f_equal. unfold Rdiv.
  apply vec3_eq; ring.
Qed.

Lemma shortsum_terms (i : SystemInfo) (pos : ndarray) :
  shortsum i pos
  = fold_left nd_add
      (flat_map (fun a => map (fun b => pair_term i (nth a (particle_charges i) 0)
                                                  (nth b (particle_charges i) 0)
                                                  (row pos a) (row pos b))
                              (seq 0 (length (particle_charges i))))
                (seq 0 (length (particle_charges i))))
      (Scalar 0).
Proof.
  unfold shortsum. rewrite <- fold_left_add_flat_map.
  apply fold_left_ext_in. intros a acc _. apply fold_left_add_map.
Qed.

Lemma flat_map_ext_in {A B : Type} (F G : A -> list B) (l : list A) :
  (forall x, In x l -> F x = G x) -> flat_map F l = flat_map G l.
Proof.
  induction l as [| x l IH]; intros H; cbn [flat_map]; [reflexivity |].
  rewrite H by (left; reflexivity). f_equal. apply IH. intros y Hy. apply H. right. exact Hy.
Qed.

Lemma flat_map_map_out {A B C : Type} (f : B -> C) (F : A -> list B) (l : list A) :
  flat_map (fun a => map f (F a)) l = map f (flat_map F l).
Proof.
  induction l as [| x l IH]; cbn [flat_map map]; [reflexivity |].
  rewrite map_app, IH. reflexivity.
Qed.

Lemma nth_scaled (c : R) (q : list R) (a : nat) :
  nth a (map (Rmult c) q) 0 = c * nth a q 0.
Proof.
  destruct (Nat.lt_ge_cases a (length q)) as [H | H].
  - rewrite (nth_indep _ 0 (c * 0)) by (rewrite length_map; exact H). apply map_nth.
  - rewrite !nth_overflow by (try rewrite length_map; exact H). lra.
Qed.

Lemma shortsum_scaled (i : SystemInfo) (c : R) (pos : ndarray) :
  shortsum (with_charges i (map (Rmult c) (particle_charges i))) pos
  = nd_mul (Scalar (c * c)) (shortsum i pos).
Proof.
  rewrite !shortsum_terms. cbn [with_charges particle_charges]. rewrite length_map.
  rewrite <- nd_sum_scaled.
  replace (nd_mul (Scalar (c * c)) (Scalar 0)) with (Scalar 0)
    by (cbn [nd_mul nd_zip]; f_equal; lra).
  f_equal. rewrite <- flat_map_map_out. apply flat_map_ext_in. intros a _.
  rewrite map_map. apply map_ext. intros b. rewrite !nth_scaled.
  apply (pair_term_scaled i c).
Qed.

Lemma sum_squares_scaled (c : R) (q : list R) :
  sum_squares (map (Rmult c) q) = c * c * sum_squares q.
Proof.
  induction q as [| x q IH]; cbn [map sum_squares fold_right] in *; [lra |].
  unfold sum_squares in IH. rewrite IH. ring.
Qed.

(** Multiplying every charge by [c] multiplies the energy by [c * c] (in
    exact arithmetic; float64 rounding is not modelled). *)
Theorem energy_of_charge_scaling (i : SystemInfo) (c : R) (pos : ndarray) (v : ndval) :
  energy_of i pos = Ok v ->
  energy_of (with_charges i (map (Rmult c) (particle_charges i))) pos
  = Ok (nd_mul (Scalar (c * c)) v).
Proof.
  unfold energy_of. cbn [with_charges particle_charges epsilon0 sigma].
  rewrite length_map.
  assert (Hv : volume (with_charges i (map (Rmult c) (particle_charges i))) = volume i)
    by reflexivity.
  rewrite Hv, shortsum_scaled, sum_squares_scaled.
  destruct (length pos <? length (particle_charges i))%nat; [discriminate |].
  destruct (py_inv (8 * PI * epsilon0 i)) as [c1 |]; [| discriminate].
  destruct (py_inv (volume i * epsilon0 i)) as [c2 |]; [| discriminate].
  destruct (py_inv (2 * epsilon0 i * sigma i * Rpower (2 * PI) (3 / 2))) as [c3 |];
    [| discriminate].
  cbn [bind]. intros H. injection H as <-. f_equal.
  destruct (shortsum i pos) as [s | [[s1 s2] s3]];
    cbn [nd_mul nd_add nd_sub nd_zip vmap vzip]; f_equal; try apply vec3_eq; ring.
Qed.

Lemma energy_of_charge_scaling_witness :
  exists v,
    energy_of (unit_info [1]) [ (0, 0, 0) ] = Ok v
    /\ energy_of (with_charges (unit_info [1])
                               (map (Rmult 3) (particle_charges (unit_info [1]))))
                 [ (0, 0, 0) ]
       = Ok (nd_mul (Scalar (3 * 3)) v).
Proof.
  destruct (energy_of (unit_info [1]) [ (0, 0, 0) ]) as [v |] eqn:H.
  - exists v. split; [reflexivity |]. exact (energy_of_charge_scaling _ 3 _ _ H).
  - exfalso. rewrite energy_of_ok in H;
      cbn [unit_info particle_charges epsilon0 char_length sigma length];
      [discriminate | apply le_n | apply R1_neq_R0 | apply R1_neq_R0 | apply R1_neq_R0].
Defined.
